(** * The invoice store of the InvoiceAnalisis front end

    A shallow embedding of the Pinia store [useInvoiceStore] (the unit that
    follows [useAuthStore] in [frontend/src/stores/auth.ts]), of the entity
    shapes of [types/invoice.ts], of the gateway [services/invoice.service.ts]
    and of the feedback handler [handleFeedback] of the invoice detail
    component.

    - Entities are records, one field per declared property; a property
      declared optional ([name?:]) is an [option], [None] being "the key is
      absent from the object".
    - The [fieldFeedback] object is used as a dictionary and is a
      [gmap string FieldFeedback].
    - The store's refs are the fields of the record [Store]; an [async]
      action is a program that runs on the store until its next [await],
      where it is suspended on a gateway call and resumed, later, on the
      store as it is at that moment.
    - Around the store: the vote buttons and the detail view, the
      composable [useInvoices], the query string of the list call, the
      response interceptor of [services/api.ts], the upload form, the auth
      store with the navigation guard of [router/index.ts], and the admin
      store. *)

From Stdlib Require Import ZArith QArith Lia String Ascii List Sorted Permutation.
From stdpp Require Import base option list sorting gmap strings pretty.

Open Scope string_scope.
Open Scope Z_scope.

(** ** JavaScript values used by the store *)

(** A JS [number] that the store only stores and copies. *)
Definition number : Type := Q.

(** Truthiness of a string-valued property that may be absent:
    [undefined] and the empty string are falsy. *)
Definition truthy (o : option string) : bool :=
  match o with
  | Some s => negb (String.eqb s "")
  | None => false
  end.

(** [a || b] where [a] is a string-valued property that may be absent. *)
Definition or_else (o : option string) (dflt : string) : string :=
  match o with
  | Some s => if String.eqb s "" then dflt else s
  | None => dflt
  end.

(** ** Entity model ([types/invoice.ts]) *)

Record LineItem := {
  description : string;
  quantity : number;
  unitPrice : number;
  totalPrice : number
}.

Inductive Vote := upvote | downvote.

(** The three-valued intent of a [FeedbackRequest]. *)
Inductive VoteIntent := vote_upvote | vote_downvote | vote_remove.

Record FieldFeedback := {
  vote : Vote;
  fb_userId : string;
  timestamp : string
}.

Inductive Status := processing | processed | failed.

Inductive OcrEngine := document_ai | tesseract.

(** [id] is declared [string], but the store itself tests
    [!updatedInvoice.id]: the key can be missing from what the gateway
    delivers, so the embedding lets it be absent. *)
Record Invoice := {
  id : option string;
  userId : string;
  fileName : string;
  storageUrl : string;
  status : Status;
  invoiceNumber : option string;
  invoiceDate : option string;
  dueDate : option string;
  vendorName : option string;
  supplierName : option string;
  supplierRuc : option string;
  totalAmount : option number;
  taxAmount : option number;
  subtotal : option number;
  currency : option string;
  lineItems : option (list LineItem);
  ocrEngine : option OcrEngine;
  ocrConfidence : option number;
  fieldFeedback : option (gmap string FieldFeedback);
  uploadedAt : string;
  processedAt : option string;
  errorMessage : option string
}.

Record File := {
  file_name : string;
  file_bytes : list Byte.byte
}.

Record InvoiceResponse := {
  ack_invoiceId : string;
  ack_fileName : string;
  ack_status : string;
  ack_message : option string
}.

Record InvoiceListResponse := {
  resp_invoices : list Invoice;
  resp_total : number
}.

Inductive SortBy := by_date | by_amount | by_vendor.
Inductive Order := asc | desc.

Record InvoiceQuery := {
  sortBy : option SortBy;
  order : option Order;
  page : option number;
  limit : option number
}.

Record FeedbackRequest := {
  req_fieldName : string;
  req_vote : VoteIntent
}.

Definition status_eqb (a b : Status) : bool :=
  match a, b with
  | processing, processing | processed, processed | failed, failed => true
  | _, _ => false
  end.

(** [inv.id === invoiceId] *)
Definition id_is (invoiceId : string) (inv : Invoice) : bool :=
  match id inv with
  | Some s => String.eqb s invoiceId
  | None => false
  end.

(** ** Object spread *)

(** The own properties of an invoice object, as the spread operator sees
    them: one entry per key that is present. *)
Inductive JsValue :=
| VStr (s : string)
| VNum (n : number)
| VStatus (st : Status)
| VEngine (e : OcrEngine)
| VItems (l : list LineItem)
| VFeedback (m : gmap string FieldFeedback).

Definition prop (inv : Invoice) (k : string) : option JsValue :=
  if String.eqb k "id" then VStr <$> id inv
  else if String.eqb k "userId" then Some (VStr (userId inv))
  else if String.eqb k "fileName" then Some (VStr (fileName inv))
  else if String.eqb k "storageUrl" then Some (VStr (storageUrl inv))
  else if String.eqb k "status" then Some (VStatus (status inv))
  else if String.eqb k "invoiceNumber" then VStr <$> invoiceNumber inv
  else if String.eqb k "invoiceDate" then VStr <$> invoiceDate inv
  else if String.eqb k "dueDate" then VStr <$> dueDate inv
  else if String.eqb k "vendorName" then VStr <$> vendorName inv
  else if String.eqb k "supplierName" then VStr <$> supplierName inv
  else if String.eqb k "supplierRuc" then VStr <$> supplierRuc inv
  else if String.eqb k "totalAmount" then VNum <$> totalAmount inv
  else if String.eqb k "taxAmount" then VNum <$> taxAmount inv
  else if String.eqb k "subtotal" then VNum <$> subtotal inv
  else if String.eqb k "currency" then VStr <$> currency inv
  else if String.eqb k "lineItems" then VItems <$> lineItems inv
  else if String.eqb k "ocrEngine" then VEngine <$> ocrEngine inv
  else if String.eqb k "ocrConfidence" then VNum <$> ocrConfidence inv
  else if String.eqb k "fieldFeedback" then VFeedback <$> fieldFeedback inv
  else if String.eqb k "uploadedAt" then Some (VStr (uploadedAt inv))
  else if String.eqb k "processedAt" then VStr <$> processedAt inv
  else if String.eqb k "errorMessage" then VStr <$> errorMessage inv
  else None.

Definition keys : list string :=
  [ "id"; "userId"; "fileName"; "storageUrl"; "status"; "invoiceNumber";
    "invoiceDate"; "dueDate"; "vendorName"; "supplierName"; "supplierRuc";
    "totalAmount"; "taxAmount"; "subtotal"; "currency"; "lineItems";
    "ocrEngine"; "ocrConfidence"; "fieldFeedback"; "uploadedAt";
    "processedAt"; "errorMessage" ].

Definition props (inv : Invoice) : gmap string JsValue :=
  list_to_map (omap (fun k => pair k <$> prop inv k) keys).

(** [{ ...a, ...b }] on one key: [b]'s value when [b] has the key. *)
Definition spread_key {A} (a b : option A) : option A :=
  match b with
  | Some _ => b
  | None => a
  end.

(** [{ ...cur, ...upd, fieldFeedback: upd.fieldFeedback || {} }].  The
    keys every invoice object carries come from [upd]; an object is truthy,
    also when empty, so [||] falls through to [{}] exactly when the key is
    absent. *)
Definition spread_feedback (cur upd : Invoice) : Invoice :=
  {| id := spread_key (id cur) (id upd);
     userId := userId upd;
     fileName := fileName upd;
     storageUrl := storageUrl upd;
     status := status upd;
     invoiceNumber := spread_key (invoiceNumber cur) (invoiceNumber upd);
     invoiceDate := spread_key (invoiceDate cur) (invoiceDate upd);
     dueDate := spread_key (dueDate cur) (dueDate upd);
     vendorName := spread_key (vendorName cur) (vendorName upd);
     supplierName := spread_key (supplierName cur) (supplierName upd);
     supplierRuc := spread_key (supplierRuc cur) (supplierRuc upd);
     totalAmount := spread_key (totalAmount cur) (totalAmount upd);
     taxAmount := spread_key (taxAmount cur) (taxAmount upd);
     subtotal := spread_key (subtotal cur) (subtotal upd);
     currency := spread_key (currency cur) (currency upd);
     lineItems := spread_key (lineItems cur) (lineItems upd);
     ocrEngine := spread_key (ocrEngine cur) (ocrEngine upd);
     ocrConfidence := spread_key (ocrConfidence cur) (ocrConfidence upd);
     fieldFeedback := Some (default ∅ (fieldFeedback upd));
     uploadedAt := uploadedAt upd;
     processedAt := spread_key (processedAt cur) (processedAt upd);
     errorMessage := spread_key (errorMessage cur) (errorMessage upd) |}.

(** ** Arrays *)

(** [Array.prototype.findIndex]: the first index whose element satisfies
    the predicate, [-1] when there is none. *)
Fixpoint findIndex_from {A} (p : A -> bool) (l : list A) (i : Z) : Z :=
  match l with
  | [] => -1
  | x :: l' => if p x then i else findIndex_from p l' (i + 1)
  end.

Definition findIndex {A} (p : A -> bool) (l : list A) : Z :=
  findIndex_from p l 0.

(** [Array.prototype.sort] with a comparator.  The result of the comparator
    is a JS number; [None] stands for [NaN], which [sort] takes as [+0].
    Hosts sort stably; on a consistent comparator every stable sort returns
    this list. *)
Definition comes_first (v : option Z) : bool :=
  match v with
  | Some z => z <=? 0
  | None => true
  end.

Fixpoint sort_insert {A} (cmp : A -> A -> option Z) (x : A) (l : list A) : list A :=
  match l with
  | [] => [x]
  | y :: l' => if comes_first (cmp x y) then x :: y :: l'
               else y :: sort_insert cmp x l'
  end.

Fixpoint array_sort {A} (cmp : A -> A -> option Z) (l : list A) : list A :=
  match l with
  | [] => []
  | x :: l' => sort_insert cmp x (array_sort cmp l')
  end.

(** [Array.prototype.filter(p).length] *)
Definition count_where {A} (p : A -> bool) (l : list A) : nat :=
  length (List.filter p l).

(** ** The store's state *)

Record Store := {
  invoices : list Invoice;
  currentInvoice : option Invoice;
  loading : bool;
  error : option string;
  total : number
}.

Definition initial_store : Store :=
  {| invoices := []; currentInvoice := None; loading := false;
     error := None; total := 0%Q |}.

Definition set_invoices (l : list Invoice) (s : Store) : Store :=
  {| invoices := l; currentInvoice := currentInvoice s; loading := loading s;
     error := error s; total := total s |}.

Definition set_currentInvoice (c : option Invoice) (s : Store) : Store :=
  {| invoices := invoices s; currentInvoice := c; loading := loading s;
     error := error s; total := total s |}.

Definition set_loading (b : bool) (s : Store) : Store :=
  {| invoices := invoices s; currentInvoice := currentInvoice s; loading := b;
     error := error s; total := total s |}.

Definition set_error (e : option string) (s : Store) : Store :=
  {| invoices := invoices s; currentInvoice := currentInvoice s;
     loading := loading s; error := e; total := total s |}.

Definition set_total (n : number) (s : Store) : Store :=
  {| invoices := invoices s; currentInvoice := currentInvoice s;
     loading := loading s; error := error s; total := n |}.

(** ** The gateway ([services/invoice.service.ts]) *)

(** What a rejected call throws: the response interceptor of
    [services/api.ts] rejects with [{code, message, details}], and
    [new Error(msg)] has a message only. *)
Record JsError := {
  code : option string;
  message : option string
}.

Definition new_Error (msg : string) : JsError :=
  {| code := None; message := Some msg |}.

(** One constructor per method of [InvoiceService], indexed by the type of
    [response.data].  The payload of the feedback call is declared
    [Invoice]; the store checks it for [null], so it is an [option]. *)
Inductive Call : Type -> Type :=
| getInvoices (query : option InvoiceQuery) : Call InvoiceListResponse
| uploadInvoice_call (file : File) : Call InvoiceResponse
| getInvoiceById (invoiceId : string) : Call Invoice
| getDownloadUrl_call (invoiceId : string) : Call string
| submitFieldFeedback_call (invoiceId : string) (feedback : FeedbackRequest)
    : Call (option Invoice).

Inductive Outcome (R : Type) :=
| Resolved (r : R)
| Rejected (e : JsError).
Arguments Resolved {R} r.
Arguments Rejected {R} e.

(** ** Asynchronous actions *)

Inductive Completion (A : Type) :=
| Normal (a : A)
| Thrown (e : JsError).
Arguments Normal {A} a.
Arguments Thrown {A} e.

(** Where a program stands after running as far as it can: finished, with
    the state it leaves, or suspended at an [await] with the state as every
    other party sees it meanwhile.  The continuation takes the outcome of
    the call and the state as it is when the promise settles.  The state
    [S] is the store for the store's actions, and the store together with
    a component's refs for a component's handlers. *)
Inductive Susp (S A : Type) : Type :=
| Done (s : S) (r : Completion A)
| Pending (s : S) {R : Type} (c : Call R) (k : Outcome R -> S -> Susp S A).
Arguments Done {S A} s r.
Arguments Pending {S A} s {R} c k.

Definition Prog (S A : Type) : Type := S -> Susp S A.

Fixpoint on_completion {S A B} (m : Susp S A) (f : Completion A -> Prog S B)
    : Susp S B :=
  match m with
  | Done s r => f r s
  | Pending s c k => Pending s c (fun o s' => on_completion (k o s') f)
  end.

Definition ret {S A} (a : A) : Prog S A := fun s => Done s (Normal a).
Definition throw {S A} (e : JsError) : Prog S A := fun s => Done s (Thrown e).
Definition complete {S A} (r : Completion A) : Prog S A := fun s => Done s r.

Definition bind {S A B} (m : Prog S A) (f : A -> Prog S B) : Prog S B :=
  fun s => on_completion (m s)
    (fun r => match r with Normal a => f a | Thrown e => throw e end).

Definition get {S A} (f : S -> A) : Prog S A := fun s => Done s (Normal (f s)).
Definition assign {S} (f : S -> S) : Prog S unit := fun s => Done (f s) (Normal tt).

(** [await service.method(...)] *)
Definition await {S R} (c : Call R) : Prog S R :=
  fun s => Pending s c (fun o s' =>
    match o with
    | Resolved r => Done s' (Normal r)
    | Rejected e => Done s' (Thrown e)
    end).

(** [try { body } catch (err) { handler err }] *)
Definition try_catch {S A} (body : Prog S A) (handler : JsError -> Prog S A)
    : Prog S A :=
  fun s => on_completion (body s)
    (fun r => match r with Normal a => ret a | Thrown e => handler e end).

(** [try { body } finally { cleanup }]: the cleanup runs on every
    completion of the body; the body's completion stands unless the cleanup
    throws. *)
Definition try_finally {S A} (body : Prog S A) (cleanup : Prog S unit) : Prog S A :=
  fun s => on_completion (body s) (fun r => bind cleanup (fun _ => complete r)).

Definition try_catch_finally {S A} (body : Prog S A) (handler : JsError -> Prog S A)
    (cleanup : Prog S unit) : Prog S A :=
  try_finally (try_catch body handler) cleanup.

Declare Scope prog_scope.
Delimit Scope prog_scope with prog.
Notation "x <- m ;; k" := (bind m (fun x => k))
  (at level 100, m at next level, right associativity) : prog_scope.
Notation "m ;; k" := (bind m (fun _ => k))
  (at level 100, right associativity) : prog_scope.

(** The gateway as the environment of one run: what each call settles to. *)
Definition Gateway : Type := forall R, Call R -> Outcome R.

(** Runs a program to completion with no other action in between: each
    promise settles on the state the program left at its [await]. *)
Fixpoint run_susp {S A} (g : Gateway) (m : Susp S A) : S * Completion A :=
  match m with
  | Done s r => (s, r)
  | Pending s c k => run_susp g (k (g _ c) s)
  end.

Definition run {S A} (g : Gateway) (p : Prog S A) (s : S) : S * Completion A :=
  run_susp g (p s).

(** ** Dates *)

(** [a - b] on JS numbers that are integral time values or [NaN]. *)
Definition js_sub (a b : option Z) : option Z :=
  match a, b with
  | Some x, Some y => Some (x - y)
  | _, _ => None
  end.

Definition digit_of (c : ascii) : option Z :=
  let n := Z.of_nat (nat_of_ascii c) in
  if (48 <=? n) && (n <=? 57) then Some (n - 48) else None.

Fixpoint digits_from (acc : Z) (l : list ascii) : option Z :=
  match l with
  | [] => Some acc
  | c :: l' => match digit_of c with
               | Some d => digits_from (10 * acc + d) l'
               | None => None
               end
  end.

Definition is_leap (y : Z) : bool :=
  ((y mod 4 =? 0) && negb (y mod 100 =? 0)) || (y mod 400 =? 0).

Definition days_in_month (y m : Z) : Z :=
  if m =? 2 then (if is_leap y then 29 else 28)
  else if (m =? 4) || (m =? 6) || (m =? 9) || (m =? 11) then 30
  else 31.

(** Days from 1970-01-01 to the given day of the proleptic Gregorian
    calendar. *)
Definition days_from_civil (y m d : Z) : Z :=
  let y' := if m <=? 2 then y - 1 else y in
  let era := y' / 400 in
  let yoe := y' - era * 400 in
  let mp := if m <=? 2 then m + 9 else m - 3 in
  let doy := (153 * mp + 2) / 5 + d - 1 in
  let doe := yoe * 365 + yoe / 4 - yoe / 100 + doy in
  era * 146097 + doe - 719468.

Definition msPerDay : Z := 86400000.

(** [new Date(s).getTime()] on the date-only form [YYYY-MM-DD] of the
    ECMAScript date-time string format, for a day that exists: midnight
    UTC of that day, in milliseconds.  [None] ([NaN]) on every other
    string: hosts go their own way on those, which is why
    [sortedInvoices] below takes the host's function as an argument and
    this one is only an instance of it. *)
Definition iso_date_getTime (s : string) : option Z :=
  match list_ascii_of_string s with
  | [y1; y2; y3; y4; "-"%char; m1; m2; "-"%char; d1; d2] =>
      match digits_from 0 [y1; y2; y3; y4], digits_from 0 [m1; m2], digits_from 0 [d1; d2] with
      | Some y, Some m, Some d =>
          if (1 <=? m) && (m <=? 12) && (1 <=? d) && (d <=? days_in_month y m)
          then Some (days_from_civil y m d * msPerDay)
          else None
      | _, _, _ => None
      end
  | _ => None
  end.

(** ** Getters of the store *)

(** [(a, b) => new Date(b.uploadedAt).getTime() - new Date(a.uploadedAt).getTime()] *)
Definition by_upload_desc (getTime : string -> option Z) (a b : Invoice) : option Z :=
  let dateA := getTime (uploadedAt a) in
  let dateB := getTime (uploadedAt b) in
  js_sub dateB dateA.

(** [[...invoices.value].sort(...)]: the sort works on a copy, the getter
    is a function of the store and leaves it as it is. *)
Definition sortedInvoices (getTime : string -> option Z) (s : Store) : list Invoice :=
  array_sort (by_upload_desc getTime) (invoices s).

Definition totalInvoices (s : Store) : number := total s.

Definition processingInvoices (s : Store) : nat :=
  count_where (fun inv => status_eqb (status inv) processing) (invoices s).

Definition processedInvoices (s : Store) : nat :=
  count_where (fun inv => status_eqb (status inv) processed) (invoices s).

Definition failedInvoices (s : Store) : nat :=
  count_where (fun inv => status_eqb (status inv) failed) (invoices s).

(** ** Actions of the store *)

Local Open Scope prog_scope.

(** [error.value = err.message || dflt; throw err] *)
Definition record_and_rethrow {A} (dflt : string) (err : JsError) : Prog Store A :=
  assign (set_error (Some (or_else (message err) dflt))) ;;
  throw err.

Definition fetchInvoices (query : option InvoiceQuery) : Prog Store unit :=
  assign (set_loading true) ;;
  assign (set_error None) ;;
  try_catch_finally
    (response <- await (getInvoices query) ;;
     assign (set_invoices (resp_invoices response)) ;;
     assign (set_total (resp_total response)))
    (record_and_rethrow "Failed to fetch invoices")
    (assign (set_loading false)).

(** [await fetchInvoices()] runs the nested action in place; the call has
    no argument, so the query is [undefined]. *)
Definition uploadInvoice (file : File) : Prog Store InvoiceResponse :=
  assign (set_loading true) ;;
  assign (set_error None) ;;
  try_catch_finally
    (response <- await (uploadInvoice_call file) ;;
     fetchInvoices None ;;
     ret response)
    (record_and_rethrow "Failed to upload invoice")
    (assign (set_loading false)).

Definition fetchInvoiceDetail (invoiceId : string) : Prog Store Invoice :=
  assign (set_loading true) ;;
  assign (set_error None) ;;
  try_catch_finally
    (invoice <- await (getInvoiceById invoiceId) ;;
     assign (set_currentInvoice (Some invoice)) ;;
     ret invoice)
    (record_and_rethrow "Failed to fetch invoice details")
    (assign (set_loading false)).

Definition getDownloadUrl (invoiceId : string) : Prog Store string :=
  assign (set_loading true) ;;
  assign (set_error None) ;;
  try_catch_finally
    (url <- await (getDownloadUrl_call invoiceId) ;;
     ret url)
    (record_and_rethrow "Failed to get download URL")
    (assign (set_loading false)).

Definition clearError : Prog Store unit := assign (set_error None).

Definition clearCurrentInvoice : Prog Store unit := assign (set_currentInvoice None).

(** [{ success: true, invoice: updatedInvoice }] *)
Record FeedbackResult := {
  success : bool;
  invoice : Invoice
}.

(** [if (!updatedInvoice || !updatedInvoice.id) throw new Error(...)] *)
Definition validate_response (updatedInvoice : option Invoice) : Prog Store Invoice :=
  match updatedInvoice with
  | Some upd => if truthy (id upd) then ret upd
                else throw (new_Error "Invalid response from server")
  | None => throw (new_Error "Invalid response from server")
  end.

(** The update of the [currentInvoice] slot. *)
Definition update_current (invoiceId : string) (upd : Invoice) (s : Store) : Store :=
  match currentInvoice s with
  | Some cur => if id_is invoiceId cur
                then set_currentInvoice (Some (spread_feedback cur upd)) s
                else s
  | None => s
  end.

(** The update of the list.  [findIndex] answers [-1] or an index inside
    the array (lemma [findIndex_range]), so the element read at [index] is
    there; were it [undefined], the spread would copy nothing from it. *)
Definition update_list (invoiceId : string) (upd : Invoice) (s : Store) : Store :=
  let index := findIndex (id_is invoiceId) (invoices s) in
  if index =? -1 then s
  else
    let old := invoices s !! Z.to_nat index in
    set_invoices
      (<[Z.to_nat index := spread_feedback (default upd old) upd]> (invoices s)) s.

Definition submitFieldFeedback (invoiceId fieldName : string) (vote : VoteIntent)
    : Prog Store FeedbackResult :=
  assign (set_error None) ;;
  try_catch
    (updatedInvoice <- await (submitFieldFeedback_call invoiceId
                                {| req_fieldName := fieldName; req_vote := vote |}) ;;
     upd <- validate_response updatedInvoice ;;
     assign (update_current invoiceId upd) ;;
     assign (update_list invoiceId upd) ;;
     ret {| success := true; invoice := upd |})
    (record_and_rethrow "Failed to submit feedback").

Local Close Scope prog_scope.

(** The store's actions as one type, to speak of all of them. *)
Inductive Action :=
| do_fetchInvoices (query : option InvoiceQuery)
| do_uploadInvoice (file : File)
| do_fetchInvoiceDetail (invoiceId : string)
| do_getDownloadUrl (invoiceId : string)
| do_submitFieldFeedback (invoiceId fieldName : string) (vote : VoteIntent)
| do_clearError
| do_clearCurrentInvoice.

(** Forgets the value an action returns. *)
Definition void {S A} (p : Prog S A) : Prog S unit := bind p (fun _ => ret tt).

Definition perform (a : Action) : Prog Store unit :=
  match a with
  | do_fetchInvoices query => fetchInvoices query
  | do_uploadInvoice file => void (uploadInvoice file)
  | do_fetchInvoiceDetail invoiceId => void (fetchInvoiceDetail invoiceId)
  | do_getDownloadUrl invoiceId => void (getDownloadUrl invoiceId)
  | do_submitFieldFeedback invoiceId fieldName vote =>
      void (submitFieldFeedback invoiceId fieldName vote)
  | do_clearError => clearError
  | do_clearCurrentInvoice => clearCurrentInvoice
  end.

(** ** The detail view ([components/invoices/InvoiceDetail.vue]) *)

(** The refs of the component next to the store it reads;
    [invoice = computed(() => invoiceStore.currentInvoice)]. *)
Record DetailView := {
  store : Store;
  downloadLoading : bool;
  feedbackLoading : bool
}.

Definition set_store (s : Store) (d : DetailView) : DetailView :=
  {| store := s; downloadLoading := downloadLoading d;
     feedbackLoading := feedbackLoading d |}.

Definition set_feedbackLoading (b : bool) (d : DetailView) : DetailView :=
  {| store := store d; downloadLoading := downloadLoading d; feedbackLoading := b |}.

(** A store action called from the component: it runs on the store of the
    view and leaves the component's refs alone. *)
Fixpoint in_store_susp {A} (d : DetailView) (m : Susp Store A) : Susp DetailView A :=
  match m with
  | Done s r => Done (set_store s d) r
  | Pending s c k =>
      Pending (set_store s d) c (fun o d' => in_store_susp d' (k o (store d')))
  end.

Definition in_store {A} (p : Prog Store A) : Prog DetailView A :=
  fun d => in_store_susp d (p (store d)).

(** [if (feedbackLoading.value || !invoice.value)] *)
Definition feedback_blocked (d : DetailView) : bool :=
  feedbackLoading d ||
  match currentInvoice (store d) with Some _ => false | None => true end.

(** The handler of a vote; [console.log] and [console.error] leave no
    trace in the state. *)
Definition handleFeedback (props_invoiceId fieldName : string) (vote : VoteIntent)
    : Prog DetailView unit :=
  (blocked <- get feedback_blocked ;;
   if blocked then ret tt
   else
     assign (set_feedbackLoading true) ;;
     try_catch_finally
       (in_store (submitFieldFeedback props_invoiceId fieldName vote) ;;
        ret tt)
       (fun err => ret tt)
       (assign (set_feedbackLoading false)))%prog.

(** ** Vocabulary of the properties *)

(** [e] is the first element of [l] that satisfies [p], and sits at [i]. *)
Definition first_match {A} (p : A -> bool) (l : list A) (i : nat) (e : A) : Prop :=
  l !! i = Some e /\ p e = true /\
  forall j e', (j < i)%nat -> l !! j = Some e' -> p e' = false.

Definition no_match {A} (p : A -> bool) (l : list A) : Prop :=
  forall e, e ∈ l -> p e = false.

(** The current-invoice slot holds an invoice with this id. *)
Definition current_is (invoiceId : string) (s : Store) : bool :=
  match currentInvoice s with
  | Some cur => id_is invoiceId cur
  | None => false
  end.

(** The feedback call an action dispatches, and a gateway that answers it
    with the invoice [R]. *)
Definition feedback_call (invoiceId fieldName : string) (vote : VoteIntent)
    : Call (option Invoice) :=
  submitFieldFeedback_call invoiceId {| req_fieldName := fieldName; req_vote := vote |}.

(** The status and the metadata of an invoice agree. *)
Definition status_consistent (inv : Invoice) : Prop :=
  (status inv = failed <-> is_Some (errorMessage inv)) /\
  (status inv <> processing <-> is_Some (processedAt inv)).

Definition store_consistent (s : Store) : Prop :=
  Forall status_consistent (invoices s) /\
  (forall cur, currentInvoice s = Some cur -> status_consistent cur).

(** Every invoice the gateway delivers has consistent status and metadata. *)
Definition gateway_consistent (g : Gateway) : Prop :=
  (forall query r, g _ (getInvoices query) = Resolved r ->
     Forall status_consistent (resp_invoices r)) /\
  (forall invoiceId r, g _ (getInvoiceById invoiceId) = Resolved r ->
     status_consistent r) /\
  (forall invoiceId feedback r,
     g _ (submitFieldFeedback_call invoiceId feedback) = Resolved (Some r) ->
     status_consistent r).

#[global] Instance Status_eq_dec : EqDecision Status.
Proof. solve_decision. Defined.

#[global] Instance status_consistent_dec (inv : Invoice) : Decision (status_consistent inv).
Proof. unfold status_consistent. apply _. Defined.

(** A copy with this id that one of the two slots holds. *)
Definition held_with_id (invoiceId : string) (s : Store) (loc : Invoice) : Prop :=
  (currentInvoice s = Some loc \/ loc ∈ invoices s) /\ id_is invoiceId loc = true.

(** The response does not lack a metadata key that the local copy has:
    a failed copy meets a failed response, a copy that left [processing]
    meets a response that left it too. *)
Definition no_step_back (cur upd : Invoice) : Prop :=
  (status cur = failed -> status upd = failed) /\
  (status cur <> processing -> status upd <> processing).


Definition manages_loading (a : Action) : bool :=
  match a with
  | do_fetchInvoices _ | do_uploadInvoice _ | do_fetchInvoiceDetail _
  | do_getDownloadUrl _ => true
  | _ => false
  end.


(** Descending order of the time values of [uploadedAt]. *)
Definition newer_or_same (getTime : string -> option Z) (a b : Invoice) : Prop :=
  match getTime (uploadedAt a), getTime (uploadedAt b) with
  | Some ta, Some tb => tb <= ta
  | _, _ => False
  end.

(** Every [uploadedAt] of the list is a date for the host. *)
Definition valid_dates (getTime : string -> option Z) (l : list Invoice) : Prop :=
  Forall (fun inv => is_Some (getTime (uploadedAt inv))) l.




(** A response passes the store's validation: it is there and its id is
    truthy. *)
Definition response_accepted (o : option Invoice) : bool :=
  match o with
  | Some upd => truthy (id upd)
  | None => false
  end.

(** The ids of the list are pairwise distinct (the id is the key of the
    cache). *)
Definition unique_ids (l : list Invoice) : Prop := NoDup (id <$> l).

(** ** Sample data *)

(** A processed invoice with nothing extracted. *)
Definition sample_invoice (invoiceId uploaded : string)
    (feedback : option (gmap string FieldFeedback)) : Invoice :=
  {| id := Some invoiceId; userId := "user-1"; fileName := "invoice.pdf";
     storageUrl := "gs://invoices/invoice.pdf"; status := processed;
     invoiceNumber := None; invoiceDate := None; dueDate := None;
     vendorName := None; supplierName := None; supplierRuc := None;
     totalAmount := None; taxAmount := None; subtotal := None;
     currency := None; lineItems := None; ocrEngine := None;
     ocrConfidence := None; fieldFeedback := feedback;
     uploadedAt := uploaded; processedAt := Some uploaded;
     errorMessage := None |}.

(** A failed invoice, with its error message. *)
Definition sample_failed (invoiceId uploaded : string) : Invoice :=
  {| id := Some invoiceId; userId := "user-1"; fileName := "invoice.pdf";
     storageUrl := "gs://invoices/invoice.pdf"; status := failed;
     invoiceNumber := None; invoiceDate := None; dueDate := None;
     vendorName := None; supplierName := None; supplierRuc := None;
     totalAmount := None; taxAmount := None; subtotal := None;
     currency := None; lineItems := None; ocrEngine := None;
     ocrConfidence := None; fieldFeedback := None;
     uploadedAt := uploaded; processedAt := Some uploaded;
     errorMessage := Some "OCR failed" |}.

Definition sample_vote : FieldFeedback :=
  {| vote := upvote; fb_userId := "user-1"; timestamp := "2024-03-02T10:00:00Z" |}.

Definition sample_local : Invoice :=
  sample_invoice "inv-1" "2024-01-01" (Some {[ "vendorName" := sample_vote ]}).

Definition sample_other : Invoice := sample_invoice "inv-2" "2024-03-01" None.

Definition sample_echo : Invoice :=
  sample_invoice "inv-1" "2024-01-01" (Some {[ "totalAmount" := sample_vote ]}).

(** A payload the validation refuses: the [id] key is missing. *)
Definition sample_without_id : Invoice :=
  {| id := None; userId := "user-1"; fileName := "invoice.pdf";
     storageUrl := "gs://invoices/invoice.pdf"; status := processed;
     invoiceNumber := None; invoiceDate := None; dueDate := None;
     vendorName := None; supplierName := None; supplierRuc := None;
     totalAmount := None; taxAmount := None; subtotal := None;
     currency := None; lineItems := None; ocrEngine := None;
     ocrConfidence := None; fieldFeedback := None;
     uploadedAt := "2024-01-01"; processedAt := Some "2024-01-01";
     errorMessage := None |}.

Definition sample_ack : InvoiceResponse :=
  {| ack_invoiceId := "inv-3"; ack_fileName := "invoice.pdf";
     ack_status := "processing"; ack_message := None |}.

Definition sample_file : File := {| file_name := "invoice.pdf"; file_bytes := [] |}.

Definition sample_listing : InvoiceListResponse :=
  {| resp_invoices := [sample_other; sample_local]; resp_total := 2%Q |}.

Definition network_error : JsError :=
  {| code := Some "network-error";
     message := Some "Unable to connect to server. Please check your internet connection." |}.

(** The list and the current slot both hold [inv-1]. *)
Definition sample_store : Store :=
  {| invoices := [sample_other; sample_local]; currentInvoice := Some sample_local;
     loading := false; error := None; total := 2%Q |}.

(** Only the list holds [inv-1]; nothing is open in the detail view. *)
Definition sample_store_list_only : Store :=
  {| invoices := [sample_other; sample_local]; currentInvoice := None;
     loading := false; error := None; total := 2%Q |}.

(** The list and the current slot hold a failed copy of [inv-1]. *)
Definition sample_store_failed : Store :=
  {| invoices := [sample_failed "inv-1" "2024-01-01"];
     currentInvoice := Some (sample_failed "inv-1" "2024-01-01");
     loading := false; error := None; total := 1%Q |}.

(** Three invoices uploaded in January, March and February 2024, as the
    list holds them. *)
Definition sample_january : Invoice := {|
  id := Some "inv-jan"; userId := "user-1"; fileName := "january.pdf";
  storageUrl := "gs://invoices/january.pdf"; status := processing;
  invoiceNumber := None; invoiceDate := None; dueDate := None;
  vendorName := None; supplierName := None; supplierRuc := None;
  totalAmount := None; taxAmount := None; subtotal := None; currency := None;
  lineItems := None; ocrEngine := None; ocrConfidence := None;
  fieldFeedback := None; uploadedAt := "2024-01-01"; processedAt := None;
  errorMessage := None |}.

Definition sample_march : Invoice := {|
  id := Some "inv-mar"; userId := "user-1"; fileName := "march.pdf";
  storageUrl := "gs://invoices/march.pdf"; status := processing;
  invoiceNumber := None; invoiceDate := None; dueDate := None;
  vendorName := None; supplierName := None; supplierRuc := None;
  totalAmount := None; taxAmount := None; subtotal := None; currency := None;
  lineItems := None; ocrEngine := None; ocrConfidence := None;
  fieldFeedback := None; uploadedAt := "2024-03-01"; processedAt := None;
  errorMessage := None |}.

Definition sample_february : Invoice := {|
  id := Some "inv-feb"; userId := "user-1"; fileName := "february.pdf";
  storageUrl := "gs://invoices/february.pdf"; status := processing;
  invoiceNumber := None; invoiceDate := None; dueDate := None;
  vendorName := None; supplierName := None; supplierRuc := None;
  totalAmount := None; taxAmount := None; subtotal := None; currency := None;
  lineItems := None; ocrEngine := None; ocrConfidence := None;
  fieldFeedback := None; uploadedAt := "2024-02-01"; processedAt := None;
  errorMessage := None |}.

Definition sample_store_2024 : Store :=
  {| invoices := [sample_january; sample_march; sample_february];
     currentInvoice := None; loading := false; error := None; total := 3%Q |}.

(** A gateway on which every call succeeds; the feedback call echoes
    [feedback_answer]. *)
Definition gateway_answering (feedback_answer : option Invoice) : Gateway :=
  fun R c =>
    match c in Call R return Outcome R with
    | getInvoices _ => Resolved sample_listing
    | uploadInvoice_call _ => Resolved sample_ack
    | getInvoiceById _ => Resolved sample_local
    | getDownloadUrl_call _ => Resolved "https://storage.example/invoice.pdf"
    | submitFieldFeedback_call _ _ => Resolved feedback_answer
    end.

(** A gateway that takes the file and is out of reach afterwards. *)
Definition gateway_down_after_upload : Gateway :=
  fun R c =>
    match c in Call R return Outcome R with
    | uploadInvoice_call _ => Resolved sample_ack
    | getInvoices _ => Rejected network_error
    | getInvoiceById _ => Rejected network_error
    | getDownloadUrl_call _ => Rejected network_error
    | submitFieldFeedback_call _ _ => Rejected network_error
    end.

(** A gateway that is out of reach. *)
Definition gateway_down : Gateway :=
  fun R c => Rejected network_error.

(** * Around the store *)

(** ** The detail view, continued *)

(** [onMounted]: the invoice of the route is fetched; a failure is logged
    and swallowed. *)
Definition detail_onMounted (props_invoiceId : string) : Prog DetailView unit :=
  try_catch
    (bind (in_store (fetchInvoiceDetail props_invoiceId)) (fun _ => ret tt))
    (fun err => ret tt).

(** [getFieldFeedback]: the vote recorded for a field of the invoice on
    display, [null] when nothing is on display, when the invoice has no
    feedback map or when the map has no entry for the field. *)
Definition getFieldFeedback (d : DetailView) (fieldName : string) : option Vote :=
  match currentInvoice (store d) with
  | Some inv =>
      match fieldFeedback inv with
      | Some m => vote <$> (m !! fieldName)
      | None => None
      end
  | None => None
  end.

(** ** The vote buttons ([components/invoices/FieldFeedback.vue]) *)

(** The payload of the [feedback] event. *)
Record FeedbackEvent := {
  ev_fieldName : string;
  ev_vote : VoteIntent
}.

(** [handleUpvote]: nothing while [isLoading]; otherwise the event is
    emitted, with [remove] when the field is already upvoted.  [None] is
    "no event". *)
Definition handleUpvote (isLoading : bool) (props_fieldName : string)
    (props_currentFeedback : option Vote) : option FeedbackEvent :=
  if isLoading then None
  else
    let vote := match props_currentFeedback with
                | Some upvote => vote_remove
                | _ => vote_upvote
                end in
    Some {| ev_fieldName := props_fieldName; ev_vote := vote |}.

Definition handleDownvote (isLoading : bool) (props_fieldName : string)
    (props_currentFeedback : option Vote) : option FeedbackEvent :=
  if isLoading then None
  else
    let vote := match props_currentFeedback with
                | Some downvote => vote_remove
                | _ => vote_downvote
                end in
    Some {| ev_fieldName := props_fieldName; ev_vote := vote |}.

(** The wiring of the template: each button is given
    [:current-feedback="getFieldFeedback(field)"] and its event goes to
    [@feedback="handleFeedback"]. *)
Definition deliver (props_invoiceId : string) (ev : option FeedbackEvent)
    : Prog DetailView unit :=
  match ev with
  | Some e => handleFeedback props_invoiceId (ev_fieldName e) (ev_vote e)
  | None => ret tt
  end.

Definition click_upvote (props_invoiceId fieldName : string) (isLoading : bool)
    : Prog DetailView unit :=
  fun d => deliver props_invoiceId
             (handleUpvote isLoading fieldName (getFieldFeedback d fieldName)) d.

Definition click_downvote (props_invoiceId fieldName : string) (isLoading : bool)
    : Prog DetailView unit :=
  fun d => deliver props_invoiceId
             (handleDownvote isLoading fieldName (getFieldFeedback d fieldName)) d.

(** ** The composable ([composables/useInvoices.ts]) *)

(** [{ success, data?, error? }]; [None] is a key that is absent or
    [undefined]. *)
Record ActionResult (A : Type) := {
  res_success : bool;
  res_data : option A;
  res_error : option string
}.
Arguments res_success {A} _.
Arguments res_data {A} _.
Arguments res_error {A} _.

Definition succeeded {A} (data : option A) : ActionResult A :=
  {| res_success := true; res_data := data; res_error := None |}.

(** [{ success: false, error: err.message }] *)
Definition failed_with {A} (err : JsError) : ActionResult A :=
  {| res_success := false; res_data := None; res_error := message err |}.

Definition use_fetchInvoices (query : option InvoiceQuery)
    : Prog Store (ActionResult unit) :=
  try_catch
    (bind (fetchInvoices query) (fun _ => ret (succeeded None)))
    (fun err => ret (failed_with err)).

Definition use_uploadInvoice (file : File) : Prog Store (ActionResult InvoiceResponse) :=
  try_catch
    (bind (uploadInvoice file) (fun response => ret (succeeded (Some response))))
    (fun err => ret (failed_with err)).

Definition use_fetchInvoiceDetail (invoiceId : string)
    : Prog Store (ActionResult Invoice) :=
  try_catch
    (bind (fetchInvoiceDetail invoiceId) (fun invoice => ret (succeeded (Some invoice))))
    (fun err => ret (failed_with err)).

Definition use_getDownloadUrl (invoiceId : string) : Prog Store (ActionResult string) :=
  try_catch
    (bind (getDownloadUrl invoiceId) (fun url => ret (succeeded (Some url))))
    (fun err => ret (failed_with err)).

(** What a wrapper answers for a completion of the action it wraps. *)
Definition answer_of {A B} (data : A -> option B) (r : Completion A) : ActionResult B :=
  match r with
  | Normal a => succeeded (data a)
  | Thrown e => failed_with e
  end.

(** ** The query string of the list call ([InvoiceService.getInvoices]) *)

(** Truthiness of a JS number that is not [NaN]. *)
Definition number_truthy (n : number) : bool := negb (Qeq_bool n 0).

Definition sortBy_text (x : SortBy) : string :=
  match x with
  | by_date => "date"
  | by_amount => "amount"
  | by_vendor => "vendor"
  end.

Definition order_text (x : Order) : string :=
  match x with
  | asc => "asc"
  | desc => "desc"
  end.

(** [if (query?.key) params.append('key', ...)], one key after the other;
    [toString] is the host's [Number.prototype.toString]. *)
Definition getInvoices_params (toString : number -> string)
    (query : option InvoiceQuery) : list (string * string) :=
  match query ≫= sortBy with
  | Some x => [("sortBy", sortBy_text x)]
  | None => []
  end ++
  match query ≫= order with
  | Some x => [("order", order_text x)]
  | None => []
  end ++
  match query ≫= page with
  | Some n => if number_truthy n then [("page", toString n)] else []
  | None => []
  end ++
  match query ≫= limit with
  | Some n => if number_truthy n then [("limit", toString n)] else []
  | None => []
  end.

(** ** The response interceptor ([services/api.ts]) *)

(** [error.response.data.error], with [details] of any type. *)
Record ErrorBody (D : Type) := {
  body_code : option string;
  body_message : option string;
  body_details : option D
}.
Arguments body_code {D} _.
Arguments body_message {D} _.
Arguments body_details {D} _.

Record AxiosResponse (D : Type) := {
  response_status : N;
  response_error : option (ErrorBody D)
}.
Arguments response_status {D} _.
Arguments response_error {D} _.

(** An [AxiosError]: the response when the server answered, whether the
    request was sent, and the message of the transport. *)
Record AxiosError (D : Type) := {
  ax_response : option (AxiosResponse D);
  ax_request : bool;
  ax_message : string
}.
Arguments ax_response {D} _.
Arguments ax_request {D} _.
Arguments ax_message {D} _.

(** What the interceptor rejects with. *)
Record ApiError (D : Type) := {
  api_code : string;
  api_message : string;
  api_details : option D
}.
Arguments api_code {D} _.
Arguments api_message {D} _.
Arguments api_details {D} _.

(** The rejection handler of [api.interceptors.response.use]; the
    [console.error] lines leave no trace. *)
Definition reject_response {D} (error : AxiosError D) : ApiError D :=
  match ax_response error with
  | Some response =>
      let status := response_status response in
      let data_error := response_error response in
      {| api_code := or_else (data_error ≫= body_code) ("http/" +:+ pretty status);
         api_message := or_else (data_error ≫= body_message) (ax_message error);
         api_details := data_error ≫= body_details |}
  | None =>
      if ax_request error then
        {| api_code := "network-error";
           api_message :=
             "Unable to connect to server. Please check your internet connection.";
           api_details := None |}
      else
        {| api_code := "request-error";
           api_message := ax_message error;
           api_details := None |}
  end.

(** The rejection as the store's [catch] blocks see it. *)
Definition as_thrown {D} (e : ApiError D) : JsError :=
  {| code := Some (api_code e); message := Some (api_message e) |}.

(** A gateway every call of which fails in the transport with [error]. *)
Definition gateway_failing_with {D} (error : AxiosError D) : Gateway :=
  fun R c => Rejected (as_thrown (reject_response error)).

(** The detail view of [inv-1], with the sample store behind it. *)
Definition sample_view : DetailView :=
  {| store := sample_store; downloadLoading := false; feedbackLoading := false |}.

(** The first page is asked for as page 0, twenty-five per page. *)
Definition sample_query_page_zero : InvoiceQuery :=
  {| sortBy := Some by_date; order := Some desc; page := Some 0%Q; limit := Some 25%Q |}.

Definition sample_offline : AxiosError unit :=
  {| ax_response := None; ax_request := true; ax_message := "Network Error" |}.


(** * The other stores *)

(** ** Actions over any service *)

(** The programs of the invoice store are suspended on the calls of
    [InvoiceService]; the same shape over an arbitrary family [C] of calls
    serves the stores that talk to other services. *)
Inductive Eff (C : Type -> Type) (S A : Type) : Type :=
| Finished (s : S) (r : Completion A)
| Waiting (s : S) {R : Type} (c : C R) (k : Outcome R -> S -> Eff C S A).
Arguments Finished {C S A} s r.
Arguments Waiting {C S A} s {R} c k.

Fixpoint eff_on_completion {C S A B} (m : Eff C S A)
    (f : Completion A -> S -> Eff C S B) : Eff C S B :=
  match m with
  | Finished s r => f r s
  | Waiting s c k => Waiting s c (fun o s' => eff_on_completion (k o s') f)
  end.

Definition eff_ret {C S A} (a : A) : S -> Eff C S A :=
  fun s => Finished s (Normal a).
Definition eff_throw {C S A} (e : JsError) : S -> Eff C S A :=
  fun s => Finished s (Thrown e).
Definition eff_complete {C S A} (r : Completion A) : S -> Eff C S A :=
  fun s => Finished s r.

Definition eff_bind {C S A B} (m : S -> Eff C S A) (f : A -> S -> Eff C S B)
    : S -> Eff C S B :=
  fun s => eff_on_completion (m s)
    (fun r => match r with Normal a => f a | Thrown e => eff_throw e end).

Definition eff_get {C S A} (f : S -> A) : S -> Eff C S A :=
  fun s => Finished s (Normal (f s)).
Definition eff_assign {C S} (f : S -> S) : S -> Eff C S unit :=
  fun s => Finished (f s) (Normal tt).

Definition eff_await {C S R} (c : C R) : S -> Eff C S R :=
  fun s => Waiting s c (fun o s' =>
    match o with
    | Resolved r => Finished s' (Normal r)
    | Rejected e => Finished s' (Thrown e)
    end).

Definition eff_try_catch {C S A} (body : S -> Eff C S A)
    (handler : JsError -> S -> Eff C S A) : S -> Eff C S A :=
  fun s => eff_on_completion (body s)
    (fun r => match r with Normal a => eff_ret a | Thrown e => handler e end).

Definition eff_try_finally {C S A} (body : S -> Eff C S A)
    (cleanup : S -> Eff C S unit) : S -> Eff C S A :=
  fun s => eff_on_completion (body s)
    (fun r => eff_bind cleanup (fun _ => eff_complete r)).

Definition eff_try_catch_finally {C S A} (body : S -> Eff C S A)
    (handler : JsError -> S -> Eff C S A) (cleanup : S -> Eff C S unit)
    : S -> Eff C S A :=
  eff_try_finally (eff_try_catch body handler) cleanup.

Declare Scope eff_scope.
Delimit Scope eff_scope with eff.
Notation "x <- m ;; k" := (eff_bind m (fun x => k))
  (at level 100, m at next level, right associativity) : eff_scope.
Notation "m ;; k" := (eff_bind m (fun _ => k))
  (at level 100, right associativity) : eff_scope.

(** Runs a program to completion on the answers [env] gives, with nothing
    else in between. *)
Fixpoint eff_run_from {C S A} (env : forall R, C R -> Outcome R) (m : Eff C S A)
    : S * Completion A :=
  match m with
  | Finished s r => (s, r)
  | Waiting s c k => eff_run_from env (k (env _ c) s)
  end.

Definition eff_run {C S A} (env : forall R, C R -> Outcome R)
    (p : S -> Eff C S A) (s : S) : S * Completion A :=
  eff_run_from env (p s).

(** The program is never suspended: it finishes without a call. *)
Definition finishes_at_once {C S A} (m : Eff C S A) : Prop :=
  match m with
  | Finished _ _ => True
  | Waiting _ _ _ => False
  end.

(** ** Users ([types/user.ts]) *)

Inductive Role := role_user | role_admin.

Record User := {
  user_uid : string;
  user_email : string;
  user_emailVerified : bool;
  user_role : Role;
  user_createdAt : string;
  user_isActive : bool;
  user_lastLoginAt : option string;
  user_profileCompleted : bool;
  user_ruc : option string;
  user_razonSocial : option string;
  user_representanteLegal : option string;
  user_direccion : option string;
  user_telefono : option string
}.

Record UserProfile := {
  profile_ruc : string;
  profile_razonSocial : string;
  profile_representanteLegal : string;
  profile_direccion : string;
  profile_telefono : option string
}.

Record UserResponse := {
  registered_uid : string;
  registered_email : string;
  registered_message : option string
}.

Record UserUpdate := {
  update_role : option Role;
  update_isActive : option bool
}.

(** The user of the Firebase SDK, as far as the store hands it on. *)
Record FirebaseUser := {
  fb_uid : string;
  fb_emailVerified : bool
}.

Record UserCredential := {
  credential_user : FirebaseUser
}.

(** ** The auth store ([stores/auth.ts]) *)

Record AuthStore := {
  currentUser : option User;
  auth_loading : bool;
  auth_error : option string;
  isAuthenticated : bool
}.

Definition initial_auth : AuthStore :=
  {| currentUser := None; auth_loading := false; auth_error := None;
     isAuthenticated := false |}.

Definition set_currentUser (u : option User) (s : AuthStore) : AuthStore :=
  {| currentUser := u; auth_loading := auth_loading s; auth_error := auth_error s;
     isAuthenticated := isAuthenticated s |}.

Definition set_auth_loading (b : bool) (s : AuthStore) : AuthStore :=
  {| currentUser := currentUser s; auth_loading := b; auth_error := auth_error s;
     isAuthenticated := isAuthenticated s |}.

Definition set_auth_error (e : option string) (s : AuthStore) : AuthStore :=
  {| currentUser := currentUser s; auth_loading := auth_loading s; auth_error := e;
     isAuthenticated := isAuthenticated s |}.

Definition set_isAuthenticated (b : bool) (s : AuthStore) : AuthStore :=
  {| currentUser := currentUser s; auth_loading := auth_loading s;
     auth_error := auth_error s; isAuthenticated := b |}.

(** [currentUser.value?.role === 'admin'] *)
Definition isAdmin (s : AuthStore) : bool :=
  match currentUser s with
  | Some u => match user_role u with role_admin => true | role_user => false end
  | None => false
  end.

(** [currentUser.value?.emailVerified || false] *)
Definition isVerified (s : AuthStore) : bool :=
  match currentUser s with
  | Some u => user_emailVerified u
  | None => false
  end.

(** [currentUser.value?.profileCompleted || false] *)
Definition profileCompleted (s : AuthStore) : bool :=
  match currentUser s with
  | Some u => user_profileCompleted u
  | None => false
  end.

(** The calls of [authService] and of the Firebase SDK. *)
Inductive AuthCall : Type -> Type :=
| register_call (email password : string) : AuthCall UserResponse
| signInWithEmailAndPassword (email password : string) : AuthCall UserCredential
| signOut : AuthCall unit
| sendEmailVerification (user : FirebaseUser) : AuthCall unit
| resendVerification_call : AuthCall string
| getProfile : AuthCall User
| updateProfile_call (profileData : UserProfile) : AuthCall User.

Definition AuthService : Type := forall R, AuthCall R -> Outcome R.

Local Open Scope eff_scope.

(** [error.value = err.message || dflt; throw err] *)
Definition auth_record_and_rethrow {A} (dflt : string) (err : JsError)
    : AuthStore -> Eff AuthCall AuthStore A :=
  eff_assign (set_auth_error (Some (or_else (message err) dflt))) ;;
  eff_throw err.

(** The frame every action of the auth store has:
    [loading.value = true; error.value = null; try {...} catch {...}
    finally { loading.value = false }]. *)
Definition auth_action {A} (dflt : string) (body : AuthStore -> Eff AuthCall AuthStore A)
    : AuthStore -> Eff AuthCall AuthStore A :=
  eff_assign (set_auth_loading true) ;;
  eff_assign (set_auth_error None) ;;
  eff_try_catch_finally body (auth_record_and_rethrow dflt)
    (eff_assign (set_auth_loading false)).

(** Returns [{ email }]. *)
Definition register (email password : string) : AuthStore -> Eff AuthCall AuthStore string :=
  auth_action "Registration failed"
    (eff_await (register_call email password) ;;
     eff_ret email).

Definition login (email password : string)
    : AuthStore -> Eff AuthCall AuthStore FirebaseUser :=
  auth_action "Login failed"
    (userCredential <- eff_await (signInWithEmailAndPassword email password) ;;
     eff_ret (credential_user userCredential)).

Definition logout : AuthStore -> Eff AuthCall AuthStore unit :=
  auth_action "Logout failed"
    (eff_await signOut ;;
     eff_assign (set_currentUser None) ;;
     eff_assign (set_isAuthenticated false)).

(** [auth_currentUser] is [auth.currentUser] of the SDK, read when the
    action starts. *)
Definition verifyEmail (auth_currentUser : option FirebaseUser)
    : AuthStore -> Eff AuthCall AuthStore unit :=
  auth_action "Failed to send verification email"
    (match auth_currentUser with
     | Some u => eff_await (sendEmailVerification u)
     | None => eff_ret tt
     end).

Definition resendVerification : AuthStore -> Eff AuthCall AuthStore unit :=
  auth_action "Failed to resend verification email"
    (eff_await resendVerification_call ;;
     eff_ret tt).

Definition fetchProfile : AuthStore -> Eff AuthCall AuthStore unit :=
  auth_action "Failed to fetch profile"
    (profile <- eff_await getProfile ;;
     eff_assign (set_currentUser (Some profile))).

Definition updateProfile (profileData : UserProfile)
    : AuthStore -> Eff AuthCall AuthStore unit :=
  auth_action "Failed to update profile"
    (updatedUser <- eff_await (updateProfile_call profileData) ;;
     eff_assign (set_currentUser (Some updatedUser))).

(** The callback that [initAuthListener] registers with
    [onAuthStateChanged]. *)
Definition authStateChanged (firebaseUser : option FirebaseUser)
    : AuthStore -> Eff AuthCall AuthStore unit :=
  match firebaseUser with
  | Some _ =>
      eff_assign (set_isAuthenticated true) ;;
      eff_try_catch fetchProfile (fun err => eff_ret tt)
  | None =>
      eff_assign (set_isAuthenticated false) ;;
      eff_assign (set_currentUser None)
  end.

(** The actions that do not sign the user in or out. *)
Inductive CredentialAction :=
| do_register (email password : string)
| do_login (email password : string)
| do_verifyEmail (auth_currentUser : option FirebaseUser)
| do_resendVerification.

Definition eff_void {C S A} (p : S -> Eff C S A) : S -> Eff C S unit :=
  eff_bind p (fun _ => eff_ret tt).

Definition perform_credential (a : CredentialAction)
    : AuthStore -> Eff AuthCall AuthStore unit :=
  match a with
  | do_register email password => eff_void (register email password)
  | do_login email password => eff_void (login email password)
  | do_verifyEmail u => verifyEmail u
  | do_resendVerification => resendVerification
  end.

(** ** The navigation guard ([router/index.ts]) *)

(** [meta] of a route; a flag that is absent is [undefined]. *)
Record RouteMeta := {
  requiresAuth : option bool;
  requiresAdmin : option bool;
  requiresVerification : option bool;
  requiresProfile : option bool
}.

Record RouteRecord := {
  record_path : string;
  record_name : option string;
  record_redirect : option string;
  record_meta : RouteMeta
}.

Definition no_meta : RouteMeta :=
  {| requiresAuth := None; requiresAdmin := None; requiresVerification := None;
     requiresProfile := None |}.

Definition meta_auth (b : bool) : RouteMeta :=
  {| requiresAuth := Some b; requiresAdmin := None; requiresVerification := None;
     requiresProfile := None |}.

Definition routes : list RouteRecord :=
  [ {| record_path := "/"; record_name := None; record_redirect := Some "/dashboard";
       record_meta := no_meta |};
    {| record_path := "/login"; record_name := Some "Login"; record_redirect := None;
       record_meta := meta_auth false |};
    {| record_path := "/register"; record_name := Some "Register";
       record_redirect := None; record_meta := meta_auth false |};
    {| record_path := "/profile"; record_name := Some "Profile"; record_redirect := None;
       record_meta := meta_auth true |};
    {| record_path := "/dashboard"; record_name := Some "Dashboard";
       record_redirect := None; record_meta := meta_auth true |};
    {| record_path := "/invoices"; record_name := Some "Invoices";
       record_redirect := None; record_meta := meta_auth true |};
    {| record_path := "/invoices/upload"; record_name := Some "InvoiceUpload";
       record_redirect := None;
       record_meta := {| requiresAuth := Some true; requiresAdmin := None;
                         requiresVerification := Some true;
                         requiresProfile := Some true |} |};
    {| record_path := "/invoices/:invoiceId"; record_name := Some "InvoiceDetail";
       record_redirect := None; record_meta := meta_auth true |};
    {| record_path := "/admin"; record_name := Some "Admin"; record_redirect := None;
       record_meta := {| requiresAuth := Some true; requiresAdmin := Some true;
                         requiresVerification := None; requiresProfile := None |} |} ].

(** The target of a navigation, resolved ([RouteLocationNormalized]). *)
Record RouteLocation := {
  route_name : option string;
  fullPath : string;
  meta : RouteMeta
}.

(** What the guard hands to [next]. *)
Inductive Navigation :=
| proceed
| redirect_to (name : string) (query_redirect : option string).

(** Truthiness of a flag of [meta]. *)
Definition flag (o : option bool) : bool := default false o.

Definition named (name : string) (to : RouteLocation) : bool :=
  match route_name to with
  | Some n => String.eqb n name
  | None => false
  end.

(** The checks of the guard, in their order; each ends in one [next]. *)
Definition guard_checks (to : RouteLocation) (authStore : AuthStore) : Navigation :=
  if flag (requiresAuth (meta to)) && negb (isAuthenticated authStore)
  then redirect_to "Login" (Some (fullPath to))
  else if (named "Login" to || named "Register" to) && isAuthenticated authStore
  then redirect_to "Dashboard" None
  else if flag (requiresAdmin (meta to)) && negb (isAdmin authStore)
  then redirect_to "Dashboard" None
  else if flag (requiresVerification (meta to)) && negb (isVerified authStore)
  then redirect_to "Profile" None
  else if flag (requiresProfile (meta to)) && negb (profileCompleted authStore)
  then redirect_to "Profile" None
  else proceed.

(** The one thing the guard waits for:
    [new Promise(resolve => setTimeout(resolve, ms))], which is never
    rejected. *)
Inductive RouterCall : Type -> Type :=
| timeout (ms : Z) : RouterCall unit.

(** [router.beforeEach]: a pause when the target needs a session and there
    is none yet, then the checks on the store as it is by then. *)
Definition beforeEach (to : RouteLocation)
    : AuthStore -> Eff RouterCall AuthStore Navigation :=
  pause <- eff_get (fun authStore =>
             negb (isAuthenticated authStore) && flag (requiresAuth (meta to))) ;;
  (if pause then eff_await (timeout 500) else eff_ret tt) ;;
  eff_get (guard_checks to).

(** The location a record of the table resolves to. *)
Definition resolves_to (r : RouteRecord) (to : RouteLocation) : Prop :=
  route_name to = record_name r /\ meta to = record_meta r.

(** ** The admin store ([stores/admin.ts]) *)

Record Statistics := {
  stat_totalUsers : number;
  stat_totalInvoices : number;
  stat_totalAmount : number;
  stat_successRate : number;
  stat_activeUsers : option number;
  stat_processingInvoices : option number;
  stat_failedInvoices : option number
}.

Record UsersResponse := {
  users_of : list User;
  users_total : number;
  users_page : number
}.

Record InvoiceFilters := {
  filter_userId : option string;
  filter_status : option string;
  filter_startDate : option string;
  filter_endDate : option string
}.

Record AdminStore := {
  users : list User;
  allInvoices : list Invoice;
  statistics : option Statistics;
  admin_loading : bool;
  admin_error : option string;
  totalUsers : number;
  admin_totalInvoices : number
}.

Definition set_users (l : list User) (s : AdminStore) : AdminStore :=
  {| users := l; allInvoices := allInvoices s; statistics := statistics s;
     admin_loading := admin_loading s; admin_error := admin_error s;
     totalUsers := totalUsers s; admin_totalInvoices := admin_totalInvoices s |}.

Definition set_allInvoices (l : list Invoice) (s : AdminStore) : AdminStore :=
  {| users := users s; allInvoices := l; statistics := statistics s;
     admin_loading := admin_loading s; admin_error := admin_error s;
     totalUsers := totalUsers s; admin_totalInvoices := admin_totalInvoices s |}.

Definition set_statistics (st : option Statistics) (s : AdminStore) : AdminStore :=
  {| users := users s; allInvoices := allInvoices s; statistics := st;
     admin_loading := admin_loading s; admin_error := admin_error s;
     totalUsers := totalUsers s; admin_totalInvoices := admin_totalInvoices s |}.

Definition set_admin_loading (b : bool) (s : AdminStore) : AdminStore :=
  {| users := users s; allInvoices := allInvoices s; statistics := statistics s;
     admin_loading := b; admin_error := admin_error s;
     totalUsers := totalUsers s; admin_totalInvoices := admin_totalInvoices s |}.

Definition set_admin_error (e : option string) (s : AdminStore) : AdminStore :=
  {| users := users s; allInvoices := allInvoices s; statistics := statistics s;
     admin_loading := admin_loading s; admin_error := e;
     totalUsers := totalUsers s; admin_totalInvoices := admin_totalInvoices s |}.

Definition set_totalUsers (n : number) (s : AdminStore) : AdminStore :=
  {| users := users s; allInvoices := allInvoices s; statistics := statistics s;
     admin_loading := admin_loading s; admin_error := admin_error s;
     totalUsers := n; admin_totalInvoices := admin_totalInvoices s |}.

Definition set_admin_totalInvoices (n : number) (s : AdminStore) : AdminStore :=
  {| users := users s; allInvoices := allInvoices s; statistics := statistics s;
     admin_loading := admin_loading s; admin_error := admin_error s;
     totalUsers := totalUsers s; admin_totalInvoices := n |}.

(** The calls of [adminService]. *)
Inductive AdminCall : Type -> Type :=
| getUsers (page limit : number) : AdminCall UsersResponse
| updateUser_call (userId : string) (updates : UserUpdate) : AdminCall User
| getAllInvoices (filters : option InvoiceFilters) : AdminCall InvoiceListResponse
| getStatistics : AdminCall Statistics.

Definition AdminService : Type := forall R, AdminCall R -> Outcome R.

Definition admin_record_and_rethrow {A} (dflt : string) (err : JsError)
    : AdminStore -> Eff AdminCall AdminStore A :=
  eff_assign (set_admin_error (Some (or_else (message err) dflt))) ;;
  eff_throw err.

Definition admin_action {A} (dflt : string)
    (body : AdminStore -> Eff AdminCall AdminStore A)
    : AdminStore -> Eff AdminCall AdminStore A :=
  eff_assign (set_admin_loading true) ;;
  eff_assign (set_admin_error None) ;;
  eff_try_catch_finally body (admin_record_and_rethrow dflt)
    (eff_assign (set_admin_loading false)).

(** [users.value.filter(user => user.isActive).length] *)
Definition activeUsers (s : AdminStore) : nat :=
  count_where user_isActive (users s).

Definition is_admin_user (u : User) : bool :=
  match user_role u with role_admin => true | role_user => false end.

Definition is_regular_user (u : User) : bool :=
  match user_role u with role_user => true | role_admin => false end.

Definition adminUsers (s : AdminStore) : list User :=
  List.filter is_admin_user (users s).

Definition regularUsers (s : AdminStore) : list User :=
  List.filter is_regular_user (users s).

(** [page: number = 1, limit: number = 50]: an argument that is left out
    takes its default. *)
Definition fetchUsers (page limit : option number)
    : AdminStore -> Eff AdminCall AdminStore unit :=
  let page := default 1%Q page in
  let limit := default 50%Q limit in
  admin_action "Failed to fetch users"
    (response <- eff_await (getUsers page limit) ;;
     eff_assign (set_users (users_of response)) ;;
     eff_assign (set_totalUsers (users_total response))).

(** [u.uid === userId] *)
Definition uid_is (userId : string) (u : User) : bool := String.eqb (user_uid u) userId.

(** The update of the list of users: the first entry with the uid. *)
Definition replace_user (userId : string) (updatedUser : User) (s : AdminStore)
    : AdminStore :=
  let index := findIndex (uid_is userId) (users s) in
  if index =? -1 then s
  else set_users (<[Z.to_nat index := updatedUser]> (users s)) s.

Definition updateUser (userId : string) (updates : UserUpdate)
    : AdminStore -> Eff AdminCall AdminStore User :=
  admin_action "Failed to update user"
    (updatedUser <- eff_await (updateUser_call userId updates) ;;
     eff_assign (replace_user userId updatedUser) ;;
     eff_ret updatedUser).

Definition fetchAllInvoices (filters : option InvoiceFilters)
    : AdminStore -> Eff AdminCall AdminStore unit :=
  admin_action "Failed to fetch invoices"
    (response <- eff_await (getAllInvoices filters) ;;
     eff_assign (set_allInvoices (resp_invoices response)) ;;
     eff_assign (set_admin_totalInvoices (resp_total response))).

Definition fetchStatistics : AdminStore -> Eff AdminCall AdminStore unit :=
  admin_action "Failed to fetch statistics"
    (stats <- eff_await getStatistics ;;
     eff_assign (set_statistics (Some stats))).

(** The actions of the admin store that call the service. *)
Inductive AdminAction :=
| do_fetchUsers (page limit : option number)
| do_updateUser (userId : string) (updates : UserUpdate)
| do_fetchAllInvoices (filters : option InvoiceFilters)
| do_fetchStatistics.

Definition perform_admin (a : AdminAction) : AdminStore -> Eff AdminCall AdminStore unit :=
  match a with
  | do_fetchUsers page limit => fetchUsers page limit
  | do_updateUser userId updates => eff_void (updateUser userId updates)
  | do_fetchAllInvoices filters => fetchAllInvoices filters
  | do_fetchStatistics => fetchStatistics
  end.

Local Close Scope eff_scope.

(** ** Sample data of the other stores *)

Definition sample_user (uid : string) (r : Role) (verified completed : bool) : User :=
  {| user_uid := uid; user_email := "user@example.com"; user_emailVerified := verified;
     user_role := r; user_createdAt := "2024-01-01"; user_isActive := true;
     user_lastLoginAt := None; user_profileCompleted := completed;
     user_ruc := None; user_razonSocial := None; user_representanteLegal := None;
     user_direccion := None; user_telefono := None |}.

Definition sample_session : AuthStore :=
  {| currentUser := Some (sample_user "u-1" role_user true true);
     auth_loading := false; auth_error := None; isAuthenticated := true |}.

(** Signed in, the profile not fetched yet. *)
Definition sample_session_no_profile : AuthStore :=
  {| currentUser := None; auth_loading := false; auth_error := None;
     isAuthenticated := true |}.

Definition auth_service_down : AuthService :=
  fun R c => Rejected network_error.

Definition admin_service_down : AdminService :=
  fun R c => Rejected network_error.

Definition sample_admin_store : AdminStore :=
  {| users := [sample_user "u-1" role_user true true;
               sample_user "u-2" role_admin true true];
     allInvoices := []; statistics := None; admin_loading := false;
     admin_error := None; totalUsers := 2%Q; admin_totalInvoices := 0%Q |}.

Definition admin_service_answering (updated : User) : AdminService :=
  fun R c =>
    match c in AdminCall R return Outcome R with
    | getUsers _ _ => Rejected network_error
    | updateUser_call _ _ => Resolved updated
    | getAllInvoices _ => Rejected network_error
    | getStatistics => Rejected network_error
    end.

Definition sample_upload_location : RouteLocation :=
  {| route_name := Some "InvoiceUpload"; fullPath := "/invoices/upload";
     meta := {| requiresAuth := Some true; requiresAdmin := None;
                requiresVerification := Some true; requiresProfile := Some true |} |}.

(** ** The upload form ([components/invoices/InvoiceUpload.vue]) *)

(** A [File] of the browser: its content and the media type the browser
    reports for it; [size] is the length of the content. *)
Record BrowserFile := {
  blob : File;
  file_type : string
}.

Definition file_size (file : BrowserFile) : Z :=
  Z.of_nat (length (file_bytes (blob file))).

Record UploadForm := {
  selectedFile : option BrowserFile;
  uploading : bool;
  progress : Z;
  upload_error : string;
  upload_success : string
}.

Definition set_selectedFile (f : option BrowserFile) (form : UploadForm) : UploadForm :=
  {| selectedFile := f; uploading := uploading form; progress := progress form;
     upload_error := upload_error form; upload_success := upload_success form |}.

Definition set_upload_error (e : string) (form : UploadForm) : UploadForm :=
  {| selectedFile := selectedFile form; uploading := uploading form;
     progress := progress form; upload_error := e;
     upload_success := upload_success form |}.

Definition set_upload_success (m : string) (form : UploadForm) : UploadForm :=
  {| selectedFile := selectedFile form; uploading := uploading form;
     progress := progress form; upload_error := upload_error form;
     upload_success := m |}.

(** [validateFile]: the form it leaves and what it returns. *)
Definition validateFile (file : BrowserFile) (form : UploadForm) : UploadForm * bool :=
  let form := set_upload_error "" form in
  if negb (String.eqb (file_type file) "application/pdf")
  then (set_upload_error "Only PDF files are allowed" form, false)
  else
    let maxSize := 10 * 1024 * 1024 in
    if file_size file >? maxSize
    then (set_upload_error "File size must not exceed 10MB" form, false)
    else (form, true).

(** [handleFileSelect]; [first_file] is [target.files?.[0]]. *)
Definition handleFileSelect (first_file : option BrowserFile) (form : UploadForm)
    : UploadForm :=
  match first_file with
  | Some file =>
      let (form, ok) := validateFile file form in
      if ok
      then set_upload_success "" (set_upload_error "" (set_selectedFile (Some file) form))
      else set_selectedFile None form
  | None => set_selectedFile None form
  end.

Definition sample_pdf : BrowserFile :=
  {| blob := sample_file; file_type := "application/pdf" |}.

Definition sample_form : UploadForm :=
  {| selectedFile := None; uploading := false; progress := 0;
     upload_error := "Only PDF files are allowed"; upload_success := "" |}.

(** ** Arrays: lemmas *)

Lemma findIndex_from_first {A} (p : A -> bool) (l : list A) (k : Z) i e :
  first_match p l i e -> findIndex_from p l k = k + Z.of_nat i.
Proof.
  revert k i. induction l as [|x l IH]; intros k i (Hi & He & Hlt).
  - discriminate.
  - destruct i as [|i]; simpl in *.
    + injection Hi as ->. rewrite He. lia.
    + rewrite (Hlt 0%nat x) by (simpl; auto with lia).
      rewrite (IH (k + 1) i); [lia|].
      repeat split; auto.
      intros j e' Hj Hl. apply (Hlt (S j) e'); [lia | exact Hl].
Qed.

Lemma findIndex_from_none {A} (p : A -> bool) (l : list A) (k : Z) :
  no_match p l -> findIndex_from p l k = -1.
Proof.
  revert k. induction l as [|x l IH]; intros k H; simpl; [reflexivity|].
  rewrite (H x) by (left).
  apply IH. intros e He. apply H. now right.
Qed.

Lemma first_match_or_none {A} (p : A -> bool) (l : list A) :
  no_match p l \/ exists i e, first_match p l i e.
Proof.
  induction l as [|x l [IH | (i & e & Hi & He & Hlt)]].
  - left. intros e He. inversion He.
  - destruct (p x) eqn:Hx.
    + right. exists 0%nat, x. repeat split; auto. intros j e' Hj. lia.
    + left. intros e He. inversion He; subst; auto.
  - right. destruct (p x) eqn:Hx.
    + exists 0%nat, x. repeat split; auto. intros j e' Hj. lia.
    + exists (S i), e. repeat split; auto.
      intros [|j] e' Hj Hl; simpl in Hl.
      * now injection Hl as <-.
      * apply (Hlt j); [lia | exact Hl].
Qed.

Lemma first_match_unique {A} (p : A -> bool) (l : list A) i e i' e' :
  first_match p l i e -> first_match p l i' e' -> i = i' /\ e = e'.
Proof.
  intros (Hi & He & Hlt) (Hi' & He' & Hlt').
  assert (i = i') as <-.
  { destruct (Nat.lt_trichotomy i i') as [H | [H | H]]; [|exact H|].
    - rewrite (Hlt' i e H Hi) in He. discriminate.
    - rewrite (Hlt i' e' H Hi') in He'. discriminate. }
  split; [reflexivity | congruence].
Qed.

Lemma first_match_no_match {A} (p : A -> bool) (l : list A) i e :
  first_match p l i e -> no_match p l -> False.
Proof.
  intros (Hi & He & _) H.
  rewrite (H e) in He; [discriminate|].
  eapply list_elem_of_lookup_2; eauto.
Qed.

(** [findIndex] answers [-1] or an index inside the array. *)
Lemma findIndex_range {A} (p : A -> bool) (l : list A) :
  findIndex p l = -1 \/ 0 <= findIndex p l < Z.of_nat (length l).
Proof.
  destruct (first_match_or_none p l) as [H | (i & e & H)].
  - left. now apply findIndex_from_none.
  - right. unfold findIndex. rewrite (findIndex_from_first p l 0 i e H).
    destruct H as (Hi & _). apply lookup_lt_Some in Hi. lia.
Qed.

(** ** Runs of [submitFieldFeedback] *)


Lemma submit_run_accepted (g : Gateway) (s : Store) invoiceId fieldName vote R :
  g _ (feedback_call invoiceId fieldName vote) = Resolved (Some R) ->
  truthy (id R) = true ->
  run g (submitFieldFeedback invoiceId fieldName vote) s
  = (update_list invoiceId R (update_current invoiceId R (set_error None s)),
     Normal {| success := true; invoice := R |}).
Proof.
  intros Hg Hid. unfold run, feedback_call in *. cbn.
  rewrite Hg. cbn. rewrite Hid. reflexivity.
Qed.

Lemma submit_run_invalid (g : Gateway) (s : Store) invoiceId fieldName vote o :
  g _ (feedback_call invoiceId fieldName vote) = Resolved o ->
  match o with Some R => truthy (id R) = false | None => True end ->
  run g (submitFieldFeedback invoiceId fieldName vote) s
  = (set_error (Some "Invalid response from server") (set_error None s),
     Thrown (new_Error "Invalid response from server")).
Proof.
  intros Hg Hid. unfold run, feedback_call in *. cbn.
  rewrite Hg. destruct o as [R|]; cbn; [rewrite Hid|]; reflexivity.
Qed.

Lemma submit_run_rejected (g : Gateway) (s : Store) invoiceId fieldName vote e :
  g _ (feedback_call invoiceId fieldName vote) = Rejected e ->
  run g (submitFieldFeedback invoiceId fieldName vote) s
  = (set_error (Some (or_else (message e) "Failed to submit feedback")) (set_error None s),
     Thrown e).
Proof.
  intros Hg. unfold run, feedback_call in *. cbn. rewrite Hg. reflexivity.
Qed.

(** A run that completes normally has received a response with a truthy
    id, and returns it. *)
Lemma submit_run_normal_inv (g : Gateway) (s : Store) invoiceId fieldName vote s' res :
  run g (submitFieldFeedback invoiceId fieldName vote) s = (s', Normal res) ->
  g _ (feedback_call invoiceId fieldName vote) = Resolved (Some (invoice res)) /\
  truthy (id (invoice res)) = true /\ success res = true /\
  s' = update_list invoiceId (invoice res)
         (update_current invoiceId (invoice res) (set_error None s)).
Proof.
  intros Hrun.
  destruct (g _ (feedback_call invoiceId fieldName vote)) as [[R|]|e] eqn:Hg.
  - destruct (truthy (id R)) eqn:Hid.
    + rewrite (submit_run_accepted g s _ _ _ R Hg Hid) in Hrun.
      injection Hrun as <- <-. auto.
    + rewrite (submit_run_invalid g s _ _ _ (Some R) Hg Hid) in Hrun. discriminate.
  - rewrite (submit_run_invalid g s _ _ _ None Hg I) in Hrun. discriminate.
  - rewrite (submit_run_rejected g s _ _ _ e Hg) in Hrun. discriminate.
Qed.

Lemma update_list_first invoiceId R s i e :
  first_match (id_is invoiceId) (invoices s) i e ->
  update_list invoiceId R s
  = set_invoices (<[i := spread_feedback e R]> (invoices s)) s.
Proof.
  intros H. unfold update_list, findIndex.
  rewrite (findIndex_from_first _ _ 0 i e H).
  destruct (Z.eqb_spec (0 + Z.of_nat i) (-1)) as [E|_]; [lia|].
  replace (Z.to_nat (0 + Z.of_nat i)) with i by lia.
  destruct H as (-> & _). reflexivity.
Qed.

Lemma update_list_none invoiceId R s :
  no_match (id_is invoiceId) (invoices s) -> update_list invoiceId R s = s.
Proof.
  intros H. unfold update_list, findIndex.
  now rewrite (findIndex_from_none _ _ 0 H).
Qed.

Lemma update_list_current invoiceId R s :
  currentInvoice (update_list invoiceId R s) = currentInvoice s.
Proof. unfold update_list. now destruct (_ =? _). Qed.

Lemma update_current_invoices invoiceId R s :
  invoices (update_current invoiceId R s) = invoices s.
Proof.
  unfold update_current. destruct (currentInvoice s) as [c|]; [|reflexivity].
  now destruct (id_is invoiceId c).
Qed.

Lemma update_current_hit invoiceId R s cur :
  currentInvoice s = Some cur -> id_is invoiceId cur = true ->
  currentInvoice (update_current invoiceId R s) = Some (spread_feedback cur R).
Proof. intros Hc Hid. unfold update_current. now rewrite Hc, Hid. Qed.

Lemma update_current_miss invoiceId R s :
  current_is invoiceId s = false -> update_current invoiceId R s = s.
Proof.
  unfold current_is, update_current.
  destruct (currentInvoice s) as [c|]; [|reflexivity]. now intros ->.
Qed.

(** ** The spread is a shallow union *)

Ltac split_key k :=
  repeat match goal with
         | |- context [String.eqb k ?s] =>
             destruct (String.eqb_spec k s) as [->|?]
         end.

Lemma spread_key_fmap {A B} (f : A -> B) (a b : option A) :
  f <$> spread_key a b
  = match f <$> b with Some v => Some v | None => f <$> a end.
Proof. now destruct a, b. Qed.

(** Key by key: the response's value where the response has the key, the
    local value otherwise, and [fieldFeedback] from the response alone. *)
Lemma prop_spread_feedback (cur upd : Invoice) (k : string) :
  prop (spread_feedback cur upd) k
  = if String.eqb k "fieldFeedback"
    then Some (VFeedback (default ∅ (fieldFeedback upd)))
    else match prop upd k with
         | Some v => Some v
         | None => prop cur k
         end.
Proof.
  unfold prop. split_key k; cbn [spread_feedback id userId fileName storageUrl
    status invoiceNumber invoiceDate dueDate vendorName supplierName supplierRuc
    totalAmount taxAmount subtotal currency lineItems ocrEngine ocrConfidence
    fieldFeedback uploadedAt processedAt errorMessage String.eqb Ascii.eqb
    Bool.eqb];
    try reflexivity; try apply spread_key_fmap.
Qed.

Lemma prop_outside_keys (inv : Invoice) (k : string) :
  k ∉ keys -> prop inv k = None.
Proof.
  intros H. unfold prop. split_key k; try reflexivity;
    exfalso; apply H; apply list_elem_of_In; simpl; tauto.
Qed.

Lemma lookup_keyed_map {V} (f : string -> option V) (ks : list string) (k : string) :
  (list_to_map (omap (fun k => pair k <$> f k) ks) : gmap string V) !! k
  = if decide (k ∈ ks) then f k else None.
Proof.
  induction ks as [|k0 ks IH].
  - simpl. rewrite lookup_empty.
    destruct (decide (k ∈ [])) as [H|]; [inversion H | reflexivity].
  - cbn [omap list_omap]. destruct (decide (k = k0)) as [->|Hne].
    + rewrite decide_True by left.
      destruct (f k0) eqn:E; cbn [fmap option_fmap option_map list_to_map foldr].
      * simpl. now rewrite lookup_insert_eq.
      * rewrite IH. now destruct (decide (k0 ∈ ks)).
    + destruct (f k0) eqn:E; cbn [fmap option_fmap option_map list_to_map foldr];
        simpl; rewrite ?lookup_insert_ne by congruence; rewrite IH;
        destruct (decide (k ∈ ks)) as [Hin|Hnin], (decide (k ∈ k0 :: ks)) as [Hin'|Hnin'];
        try reflexivity.
      all: try (exfalso; apply Hnin'; now right).
      all: exfalso; inversion Hin'; subst; contradiction.
Qed.

Lemma props_lookup (inv : Invoice) (k : string) : props inv !! k = prop inv k.
Proof.
  unfold props. rewrite lookup_keyed_map.
  destruct (decide (k ∈ keys)) as [_|H]; [reflexivity|].
  symmetry. now apply prop_outside_keys.
Qed.

(** [{...cur, ...upd, fieldFeedback: upd.fieldFeedback || {}}] as a map of
    own properties: the union of the two objects in which [upd] wins, and
    the feedback key set to the response's map or to the empty one. *)
Lemma props_spread_feedback (cur upd : Invoice) :
  props (spread_feedback cur upd)
  = <["fieldFeedback" := VFeedback (default ∅ (fieldFeedback upd))]>
      (props upd ∪ props cur).
Proof.
  apply map_eq. intros k.
  rewrite props_lookup, prop_spread_feedback.
  destruct (String.eqb_spec k "fieldFeedback") as [->|Hk].
  - now rewrite lookup_insert_eq.
  - rewrite lookup_insert_ne by congruence.
    rewrite lookup_union, !props_lookup.
    destruct (prop upd k), (prop cur k); reflexivity.
Qed.

(** ** The feedback reconciler *)

(** C1 -- Replacement semantics of the feedback reconciler.  After a run of
    [submitFieldFeedback invoiceId fieldName vote] that completes normally
    with the invoice [R], the caller has [{success: true, invoice: R}] and:
    (1) a current invoice with that id is replaced by
    the spread of itself and [R]; (2) the first list entry with that id is
    replaced by the spread of itself and [R], the other entries stay;
    (3) a slot that does not hold the id is as it was; and the spread is the
    shallow union of the two objects in which [R] wins, its [fieldFeedback]
    being [R]'s map, or the empty map when [R] has none. *)
Theorem feedback_replacement (g : Gateway) (s s' : Store)
    (invoiceId fieldName : string) (vote : VoteIntent) (res : FeedbackResult) :
  run g (submitFieldFeedback invoiceId fieldName vote) s = (s', Normal res) ->
  let R := invoice res in
  res = {| success := true; invoice := R |} /\
  (forall cur, currentInvoice s = Some cur -> id_is invoiceId cur = true ->
     currentInvoice s' = Some (spread_feedback cur R)) /\
  (forall i e, first_match (id_is invoiceId) (invoices s) i e ->
     invoices s' = <[i := spread_feedback e R]> (invoices s)) /\
  (current_is invoiceId s = false -> currentInvoice s' = currentInvoice s) /\
  (no_match (id_is invoiceId) (invoices s) -> invoices s' = invoices s) /\
  (forall loc : Invoice,
     props (spread_feedback loc R)
     = <["fieldFeedback" := VFeedback (default ∅ (fieldFeedback R))]> (props R ∪ props loc) /\
     fieldFeedback (spread_feedback loc R) = Some (default ∅ (fieldFeedback R))).
Proof.
  intros Hrun R.
  destruct (submit_run_normal_inv _ _ _ _ _ _ _ Hrun) as (_ & _ & Hok & ->).
  fold R. repeat split.
  - subst R. destruct res as [ok upd]. cbn in *. now rewrite Hok.
  - intros cur Hc Hid. rewrite update_list_current.
    now apply update_current_hit.
  - intros i e H.
    rewrite (update_list_first invoiceId R _ i e); rewrite update_current_invoices;
      [reflexivity | exact H].
  - intros Hc. rewrite update_list_current, update_current_miss; auto.
  - intros H. rewrite update_list_none; rewrite update_current_invoices; auto.
  - apply props_spread_feedback.
Qed.

Lemma feedback_replacement_witness :
  run (gateway_answering (Some sample_echo))
      (submitFieldFeedback "inv-1" "totalAmount" vote_upvote) sample_store
  = (set_invoices [sample_other; spread_feedback sample_local sample_echo]
       (set_currentInvoice (Some (spread_feedback sample_local sample_echo)) sample_store),
     Normal {| success := true; invoice := sample_echo |})
  /\ fieldFeedback (spread_feedback sample_local sample_echo)
     = Some {[ "totalAmount" := sample_vote ]}.
Proof.
  split; [reflexivity|].
  refine (proj2 (proj2 (proj2 (proj2 (proj2 (proj2
    (feedback_replacement (gateway_answering (Some sample_echo)) sample_store _
       "inv-1" "totalAmount" vote_upvote _ eq_refl))))) sample_local)).
Defined.

Lemma truthy_Some (o : option string) : truthy o = true -> exists x, o = Some x.
Proof. destruct o; [eauto | discriminate]. Qed.

Lemma id_is_spread (invoiceId : string) (loc R : Invoice) :
  truthy (id R) = true -> id_is invoiceId (spread_feedback loc R) = id_is invoiceId R.
Proof.
  intros H. destruct (truthy_Some _ H) as (x & Hx).
  unfold id_is. cbn [spread_feedback id]. now rewrite Hx.
Qed.

(** What the two slots hold after an accepted response, in terms of what
    they held before. *)
Lemma current_after (invoiceId : string) (R : Invoice) (s : Store) cur' :
  truthy (id R) = true ->
  currentInvoice (update_list invoiceId R (update_current invoiceId R s)) = Some cur' ->
  id_is invoiceId cur' = true ->
  id_is invoiceId R = true /\ fieldFeedback cur' = Some (default ∅ (fieldFeedback R)) /\
  current_is invoiceId s = true.
Proof.
  intros HR Hc Hid. rewrite update_list_current in Hc.
  unfold update_current, current_is in *.
  destruct (currentInvoice s) as [cur|] eqn:E; [|congruence].
  destruct (id_is invoiceId cur) eqn:Hcur.
  - cbn in Hc. injection Hc as <-. rewrite id_is_spread in Hid by exact HR. auto.
  - congruence.
Qed.

Lemma first_match_after (invoiceId : string) (R : Invoice) (l : list Invoice) i e :
  id_is invoiceId R = true -> truthy (id R) = true ->
  first_match (id_is invoiceId) l i e ->
  first_match (id_is invoiceId) (<[i := spread_feedback e R]> l) i (spread_feedback e R).
Proof.
  intros HR Ht (Hi & He & Hlt). repeat split.
  - apply list_lookup_insert_eq. now apply lookup_lt_Some in Hi.
  - now rewrite id_is_spread.
  - intros j e' Hj Hl. rewrite list_lookup_insert_ne in Hl by lia. eauto.
Qed.

Lemma unique_ids_one_match (invoiceId : string) (l : list Invoice) i e j e' :
  unique_ids l -> l !! i = Some e -> id_is invoiceId e = true ->
  l !! j = Some e' -> id_is invoiceId e' = true -> i = j.
Proof.
  intros Hnd Hi He Hj He'. unfold id_is in *.
  destruct (id e) as [x|] eqn:Hx; [|discriminate].
  destruct (id e') as [y|] eqn:Hy; [|discriminate].
  apply String.eqb_eq in He, He'. subst.
  eapply (NoDup_lookup (id <$> l) i j (Some invoiceId)); [exact Hnd | |];
    rewrite list_lookup_fmap; [rewrite Hi | rewrite Hj]; simpl; congruence.
Qed.

(** C2 -- Read-after-write consistency of the two slots.  After a run of
    [submitFieldFeedback invoiceId fieldName vote] that completes normally:
    if the current slot and the list both held the id before, the current
    invoice and the list entry that was found carry the same [fieldFeedback]
    map; and in the store that results, a current invoice with that id
    carries the same map as the list entry found for the id -- and as every
    list entry with the id, when the ids of the list are distinct. *)
Theorem list_current_consistency (g : Gateway) (s s' : Store)
    (invoiceId fieldName : string) (vote : VoteIntent) (res : FeedbackResult) :
  run g (submitFieldFeedback invoiceId fieldName vote) s = (s', Normal res) ->
  (forall cur i e,
     currentInvoice s = Some cur -> id_is invoiceId cur = true ->
     first_match (id_is invoiceId) (invoices s) i e ->
     exists cur' e', currentInvoice s' = Some cur' /\ invoices s' !! i = Some e' /\
       fieldFeedback cur' = fieldFeedback e') /\
  (forall cur' i e',
     currentInvoice s' = Some cur' -> id_is invoiceId cur' = true ->
     first_match (id_is invoiceId) (invoices s') i e' ->
     fieldFeedback cur' = fieldFeedback e') /\
  (unique_ids (invoices s) ->
   forall cur' e',
     currentInvoice s' = Some cur' -> id_is invoiceId cur' = true ->
     e' ∈ invoices s' -> id_is invoiceId e' = true ->
     fieldFeedback cur' = fieldFeedback e').
Proof.
  intros Hrun.
  destruct (submit_run_normal_inv _ _ _ _ _ _ _ Hrun) as (_ & Ht & _ & ->).
  set (R := invoice res) in *. set (s0 := set_error None s).
  repeat split.
  - intros cur i e Hc Hid H.
    exists (spread_feedback cur R), (spread_feedback e R). repeat split.
    + rewrite update_list_current. now apply update_current_hit.
    + rewrite (update_list_first invoiceId R _ i e);
        rewrite update_current_invoices; [|exact H].
      destruct H as (Hi & _). apply list_lookup_insert_eq.
      now apply lookup_lt_Some in Hi.
  - intros cur' i e' Hc Hid H.
    destruct (current_after invoiceId R s0 cur' Ht Hc Hid) as (HR & -> & _).
    destruct (first_match_or_none (id_is invoiceId) (invoices s)) as [Hn | (i0 & e0 & H0)].
    + rewrite update_list_none in H by (rewrite update_current_invoices; exact Hn).
      rewrite update_current_invoices in H.
      destruct (first_match_no_match _ _ _ _ H Hn).
    + rewrite (update_list_first invoiceId R _ i0 e0) in H
        by (rewrite update_current_invoices; exact H0).
      rewrite update_current_invoices in H. cbn [invoices set_invoices] in H.
      pose proof (first_match_after invoiceId R _ i0 e0 HR Ht H0) as H1.
      destruct (first_match_unique _ _ _ _ _ _ H H1) as (_ & ->). reflexivity.
  - intros Hnd cur' e' Hc Hid Hin He'.
    destruct (current_after invoiceId R s0 cur' Ht Hc Hid) as (HR & -> & _).
    destruct (first_match_or_none (id_is invoiceId) (invoices s)) as [Hn | (i0 & e0 & H0)].
    + rewrite update_list_none in Hin by (rewrite update_current_invoices; exact Hn).
      rewrite update_current_invoices in Hin.
      rewrite (Hn e' Hin) in He'. discriminate.
    + rewrite (update_list_first invoiceId R _ i0 e0) in Hin
        by (rewrite update_current_invoices; exact H0).
      rewrite update_current_invoices in Hin. cbn [invoices set_invoices] in Hin.
      apply list_elem_of_lookup in Hin as (j & Hj).
      destruct (decide (j = i0)) as [->|Hne].
      * destruct H0 as (Hi0 & _).
        rewrite list_lookup_insert_eq in Hj by now apply lookup_lt_Some in Hi0.
        now injection Hj as <-.
      * rewrite list_lookup_insert_ne in Hj by congruence.
        destruct H0 as (Hi0 & He0 & _).
        destruct Hne. symmetry.
        exact (unique_ids_one_match invoiceId _ _ _ _ _ Hnd Hi0 He0 Hj He').
Qed.

Lemma list_current_consistency_witness :
  run (gateway_answering (Some sample_echo))
      (submitFieldFeedback "inv-1" "totalAmount" vote_upvote) sample_store
  = (set_invoices [sample_other; spread_feedback sample_local sample_echo]
       (set_currentInvoice (Some (spread_feedback sample_local sample_echo)) sample_store),
     Normal {| success := true; invoice := sample_echo |})
  /\ unique_ids (invoices sample_store)
  /\ fieldFeedback (spread_feedback sample_local sample_echo)
     = fieldFeedback (spread_feedback sample_local sample_echo).
Proof.
  assert (unique_ids (invoices sample_store)) as Hnd.
  { apply (bool_decide_unpack _). vm_compute. exact I. }
  split; [reflexivity | split; [exact Hnd|]].
  refine (proj2 (proj2
    (list_current_consistency (gateway_answering (Some sample_echo)) sample_store _
       "inv-1" "totalAmount" vote_upvote _ eq_refl)) Hnd
    (spread_feedback sample_local sample_echo) (spread_feedback sample_local sample_echo)
    eq_refl eq_refl _ eq_refl).
  apply (list_elem_of_lookup_2 _ 1%nat). reflexivity.
Defined.

(** ** Validation of the feedback response *)

(** C3, as the code has it -- A response passes when it is there and its id
    is truthy, whatever that id is.  When the gateway answers with [null],
    or with an object whose id is missing or empty, the run throws
    [Error('Invalid response from server')], records that message in the
    error slot and leaves the list and the current invoice as they were;
    when the response passes, the run completes normally with it, also
    when its id is not the submitted one. *)
Theorem feedback_response_validation (g : Gateway) (s : Store)
    (invoiceId fieldName : string) (vote : VoteIntent) (o : option Invoice) :
  g _ (feedback_call invoiceId fieldName vote) = Resolved o ->
  (response_accepted o = false ->
     exists s',
       run g (submitFieldFeedback invoiceId fieldName vote) s
       = (s', Thrown (new_Error "Invalid response from server")) /\
       invoices s' = invoices s /\ currentInvoice s' = currentInvoice s /\
       error s' = Some "Invalid response from server") /\
  (response_accepted o = true ->
     exists s' R,
       o = Some R /\
       run g (submitFieldFeedback invoiceId fieldName vote) s
       = (s', Normal {| success := true; invoice := R |})).
Proof.
  intros Hg. split; intros Hacc.
  - eexists. split.
    { apply (submit_run_invalid g s _ _ _ o Hg).
      destruct o; [exact Hacc | exact I]. }
    repeat split.
  - destruct o as [R|]; [|discriminate].
    eexists _, R. split; [reflexivity|].
    now apply submit_run_accepted.
Qed.

Lemma feedback_response_validation_witness :
  gateway_answering (Some sample_without_id) _
    (feedback_call "inv-1" "totalAmount" vote_upvote) = Resolved (Some sample_without_id)
  /\ response_accepted (Some sample_without_id) = false
  /\ exists s',
       run (gateway_answering (Some sample_without_id))
           (submitFieldFeedback "inv-1" "totalAmount" vote_upvote) sample_store
       = (s', Thrown (new_Error "Invalid response from server")) /\
       invoices s' = invoices sample_store /\
       currentInvoice s' = currentInvoice sample_store /\
       error s' = Some "Invalid response from server".
Proof.
  split; [reflexivity | split; [reflexivity|]].
  exact (proj1 (feedback_response_validation
    (gateway_answering (Some sample_without_id)) sample_store
    "inv-1" "totalAmount" vote_upvote _ eq_refl) eq_refl).
Defined.

(** C3, counterexample to the id having to match -- The gateway answers the feedback for
    [inv-1] with the invoice [inv-2]; the run completes normally and the
    current invoice [inv-1] is replaced by the spread with [inv-2]. *)
Lemma feedback_accepts_other_id :
  exists s' res,
    run (gateway_answering (Some sample_other))
        (submitFieldFeedback "inv-1" "totalAmount" vote_upvote) sample_store
    = (s', Normal res) /\
    id (invoice res) = Some "inv-2" /\
    currentInvoice sample_store = Some sample_local /\
    currentInvoice s' = Some (spread_feedback sample_local sample_other) /\
    currentInvoice s' <> currentInvoice sample_store /\
    invoices s' <> invoices sample_store.
Proof.
  eexists _, _. split; [reflexivity|].
  repeat split; try discriminate.
Qed.

(** ** Failure of a fetch *)

Lemma or_else_nonempty (o : option string) (dflt : string) :
  dflt <> "" -> or_else o dflt <> "".
Proof.
  intros H. unfold or_else. destruct o as [m|]; [|exact H].
  destruct (String.eqb_spec m ""); assumption.
Qed.

Lemma fetch_run (g : Gateway) (s : Store) (query : option InvoiceQuery) :
  run g (fetchInvoices query) s
  = match g _ (getInvoices query) with
    | Resolved response =>
        (set_loading false
           (set_total (resp_total response)
              (set_invoices (resp_invoices response)
                 (set_error None (set_loading true s)))), Normal tt)
    | Rejected e =>
        (set_loading false
           (set_error (Some (or_else (message e) "Failed to fetch invoices"))
              (set_error None (set_loading true s))), Thrown e)
    end.
Proof. unfold run. cbn. now destruct (g _ (getInvoices query)). Qed.

(** C4 -- A failed fetch preserves the state.  When the gateway rejects the
    list call with [e], [fetchInvoices] throws [e] again, leaves the cached
    list, the total and the current invoice as they were, leaves a
    non-empty message in the error slot and clears the loading flag. *)
Theorem failed_fetch_preserves_state (g : Gateway) (s : Store)
    (query : option InvoiceQuery) (e : JsError) :
  g _ (getInvoices query) = Rejected e ->
  exists s',
    run g (fetchInvoices query) s = (s', Thrown e) /\
    invoices s' = invoices s /\ total s' = total s /\
    currentInvoice s' = currentInvoice s /\
    (exists msg, error s' = Some msg /\ msg <> "") /\
    loading s' = false.
Proof.
  intros Hg. rewrite fetch_run, Hg. eexists. split; [reflexivity|].
  repeat split. eexists. split; [reflexivity|].
  now apply or_else_nonempty.
Qed.

Lemma failed_fetch_preserves_state_witness :
  gateway_down _ (getInvoices None) = Rejected network_error
  /\ exists s',
       run gateway_down (fetchInvoices None) sample_store = (s', Thrown network_error) /\
       invoices s' = invoices sample_store /\ total s' = total sample_store /\
       currentInvoice s' = currentInvoice sample_store /\
       (exists msg, error s' = Some msg /\ msg <> "") /\
       loading s' = false.
Proof.
  split; [reflexivity|].
  exact (failed_fetch_preserves_state gateway_down sample_store None network_error eq_refl).
Defined.

(** ** Feedback without an open invoice *)



(** The guard of the component's handler, next to C5: with nothing open
    in the detail view the handler returns without a call, whatever the
    list holds; with an invoice open and no vote in flight its first step
    is the store's feedback call. *)
Lemma handleFeedback_blocked (d : DetailView) (props_invoiceId fieldName : string)
    (vt : VoteIntent) :
  feedback_blocked d = true ->
  handleFeedback props_invoiceId fieldName vt d = Done d (Normal tt).
Proof. intros H. unfold handleFeedback, bind, get. cbn. now rewrite H. Qed.

Lemma handleFeedback_dispatches (d : DetailView) (props_invoiceId fieldName : string)
    (vt : VoteIntent) :
  feedback_blocked d = false ->
  exists k,
    handleFeedback props_invoiceId fieldName vt d
    = Pending (set_store (set_error None (store d)) (set_feedbackLoading true d))
        (feedback_call props_invoiceId fieldName vt) k.
Proof.
  intros H. unfold handleFeedback, bind, get. cbn. rewrite H. cbn.
  eexists. reflexivity.
Qed.

(** ** Runs of the other actions *)

Lemma upload_run (g : Gateway) (s : Store) (file : File) :
  run g (uploadInvoice file) s
  = match g _ (uploadInvoice_call file) with
    | Resolved ack =>
        let s1 := set_error None (set_loading true (set_error None (set_loading true s))) in
        match g _ (getInvoices None) with
        | Resolved response =>
            (set_loading false
               (set_loading false
                  (set_total (resp_total response)
                     (set_invoices (resp_invoices response) s1))), Normal ack)
        | Rejected e =>
            (set_loading false
               (set_error (Some (or_else (message e) "Failed to upload invoice"))
                  (set_loading false
                     (set_error (Some (or_else (message e) "Failed to fetch invoices")) s1))),
             Thrown e)
        end
    | Rejected e =>
        (set_loading false
           (set_error (Some (or_else (message e) "Failed to upload invoice"))
              (set_error None (set_loading true s))), Thrown e)
    end.
Proof.
  unfold run. cbn. destruct (g _ (uploadInvoice_call file)); cbn; [|reflexivity].
  now destruct (g _ (getInvoices None)).
Qed.

Lemma detail_run (g : Gateway) (s : Store) (invoiceId : string) :
  run g (fetchInvoiceDetail invoiceId) s
  = match g _ (getInvoiceById invoiceId) with
    | Resolved inv =>
        (set_loading false
           (set_currentInvoice (Some inv) (set_error None (set_loading true s))),
         Normal inv)
    | Rejected e =>
        (set_loading false
           (set_error (Some (or_else (message e) "Failed to fetch invoice details"))
              (set_error None (set_loading true s))), Thrown e)
    end.
Proof. unfold run. cbn. now destruct (g _ (getInvoiceById invoiceId)). Qed.

Lemma download_run (g : Gateway) (s : Store) (invoiceId : string) :
  run g (getDownloadUrl invoiceId) s
  = match g _ (getDownloadUrl_call invoiceId) with
    | Resolved url =>
        (set_loading false (set_error None (set_loading true s)), Normal url)
    | Rejected e =>
        (set_loading false
           (set_error (Some (or_else (message e) "Failed to get download URL"))
              (set_error None (set_loading true s))), Thrown e)
    end.
Proof. unfold run. cbn. now destruct (g _ (getDownloadUrl_call invoiceId)). Qed.

(** Forgetting the returned value changes neither the store nor whether
    the run completes normally. *)
Lemma run_void {S A} (g : Gateway) (p : Prog S A) (s : S) :
  run g (void p) s
  = (fst (run g p s),
     match snd (run g p s) with Normal _ => Normal tt | Thrown e => Thrown e end).
Proof.
  unfold run, void, bind. generalize (p s) as m.
  induction m as [s0 [a|e] | s0 R c k IH]; cbn; auto.
Qed.

Lemma submit_run_loading (g : Gateway) (s : Store) invoiceId fieldName vote :
  loading (fst (run g (submitFieldFeedback invoiceId fieldName vote) s)) = loading s.
Proof.
  destruct (g _ (feedback_call invoiceId fieldName vote)) as [o|e] eqn:Hg.
  - destruct (response_accepted o) eqn:Hacc.
    + destruct o as [R|]; [|discriminate].
      rewrite (submit_run_accepted g s _ _ _ R Hg Hacc). cbn [fst].
      unfold update_list, update_current.
      destruct (_ =? _), (currentInvoice _) as [c|]; try reflexivity;
        destruct (id_is invoiceId c); reflexivity.
    + rewrite (submit_run_invalid g s _ _ _ o Hg); [reflexivity|].
      destruct o; [exact Hacc | exact I].
  - now rewrite (submit_run_rejected g s _ _ _ e Hg).
Qed.

Lemma update_slots_flags (invoiceId : string) (R : Invoice) (s : Store) :
  let s' := update_list invoiceId R (update_current invoiceId R s) in
  error s' = error s /\ loading s' = loading s /\ total s' = total s.
Proof.
  unfold update_list, update_current.
  destruct (_ =? _), (currentInvoice s) as [c|]; try (repeat split; fail);
    destruct (id_is invoiceId c); repeat split.
Qed.

(** ** The loading flag *)

(** C7, as the code has it -- The four actions that raise the loading flag
    ([fetchInvoices], [uploadInvoice], [fetchInvoiceDetail],
    [getDownloadUrl]) clear it in their [finally] block: after a run, on
    every outcome of the gateway, the flag is [false].  The other actions
    ([submitFieldFeedback], [clearError], [clearCurrentInvoice]) never
    write the flag: after a run it is what it was. *)
Theorem loading_cleanup (a : Action) (g : Gateway) (s : Store) :
  (manages_loading a = true -> loading (fst (run g (perform a) s)) = false) /\
  (manages_loading a = false -> loading (fst (run g (perform a) s)) = loading s).
Proof.
  split; intros H; destruct a; try discriminate H; cbn [perform];
    rewrite ?run_void; try reflexivity.
  - rewrite fetch_run. now destruct (g _ _).
  - rewrite upload_run. destruct (g _ _); [|reflexivity]. now destruct (g _ _).
  - rewrite detail_run. now destruct (g _ _).
  - rewrite download_run. now destruct (g _ _).
  - cbn [fst]. apply submit_run_loading.
Qed.

Lemma loading_cleanup_witness :
  manages_loading (do_uploadInvoice sample_file) = true
  /\ loading (fst (run gateway_down (perform (do_uploadInvoice sample_file))
                     (set_loading true sample_store))) = false.
Proof.
  split; [reflexivity|].
  exact (proj1 (loading_cleanup (do_uploadInvoice sample_file) gateway_down
                  (set_loading true sample_store)) eq_refl).
Defined.

(** C7, counterexample to every action clearing the flag -- While a [fetchInvoices] started on the
    initial store is suspended on its call the flag is raised, and a
    [submitFieldFeedback] that runs to completion meanwhile leaves it
    raised. *)
Lemma feedback_leaves_loading_raised :
  exists s1 k,
    fetchInvoices None initial_store = Pending s1 (getInvoices None) k /\
    loading s1 = true /\
    loading (fst (run (gateway_answering (Some sample_echo))
                    (perform (do_submitFieldFeedback "inv-1" "totalAmount" vote_upvote))
                    s1)) = true.
Proof. eexists _, _. split; [reflexivity|]. split; reflexivity. Qed.

(** ** Upload *)

(** C8 -- [uploadInvoice file] first hands the file to the gateway; on every
    acknowledgment it then dispatches the list call with no query, and only
    when that call is answered does it complete: with the acknowledgment of
    the upload as its value and the list and the total replaced by the
    answer.  A rejected upload or a rejected refresh is thrown again. *)
Theorem upload_then_refresh (file : File) (s : Store) :
  exists k1,
    uploadInvoice file s
    = Pending (set_error None (set_loading true s)) (uploadInvoice_call file) k1 /\
    (forall (ack : InvoiceResponse) (s1 : Store), exists k2,
       k1 (Resolved ack) s1
       = Pending (set_error None (set_loading true s1)) (getInvoices None) k2 /\
       (forall (response : InvoiceListResponse) (s2 : Store), exists s3,
          k2 (Resolved response) s2 = Done s3 (Normal ack) /\
          invoices s3 = resp_invoices response /\ total s3 = resp_total response /\
          loading s3 = false) /\
       (forall (e : JsError) (s2 : Store), exists s3,
          k2 (Rejected e) s2 = Done s3 (Thrown e))) /\
    (forall (e : JsError) (s1 : Store), exists s3,
       k1 (Rejected e) s1 = Done s3 (Thrown e)).
Proof.
  eexists. split; [reflexivity|]. split.
  - intros ack s1. eexists. split; [reflexivity|]. split.
    + intros response s2. eexists. split; [reflexivity|]. repeat split.
    + intros e s2. eexists. reflexivity.
  - intros e s1. eexists. reflexivity.
Qed.

(** ** The error slot *)




(** ** Status and metadata *)

Lemma spread_key_is_Some {A} (a b : option A) :
  is_Some (spread_key a b) <-> is_Some b \/ (b = None /\ is_Some a).
Proof.
  destruct b as [x|]; simpl.
  - split; [intros _; left; eauto | intros _; eauto].
  - split; [intros H; right; auto | intros [[y Hy] | [_ H]]; [discriminate | exact H]].
Qed.

(** The spread keeps status and metadata consistent when the response does
    not step back from the local copy. *)
Lemma spread_feedback_consistent (loc R : Invoice) :
  status_consistent loc -> status_consistent R -> no_step_back loc R ->
  status_consistent (spread_feedback loc R).
Proof.
  intros (Le & Lp) (Re & Rp) (Hf & Hp).
  unfold status_consistent. cbn [spread_feedback status errorMessage processedAt].
  rewrite !spread_key_is_Some. split; split.
  - intros H. left. now apply Re.
  - intros [H | [_ H]]; [now apply Re | apply Hf; now apply Le].
  - intros H. left. now apply Rp.
  - intros [H | [_ H]]; [now apply Rp | apply Hp; now apply Lp].
Qed.

Lemma gateway_answering_consistent (o : option Invoice) :
  (forall R, o = Some R -> status_consistent R) ->
  gateway_consistent (gateway_answering o).
Proof.
  intros Ho. split; [|split].
  - intros query r H. injection H as <-.
    apply (bool_decide_unpack _). vm_compute. exact I.
  - intros invoiceId r H. injection H as <-.
    apply (bool_decide_unpack _). vm_compute. exact I.
  - intros invoiceId feedback r H. injection H as H. now apply Ho.
Qed.

(** C6, as the code has it -- Status and metadata stay consistent in both
    slots under every action, when the gateway delivers consistent invoices
    and, for [submitFieldFeedback], when the response does not step back
    from the copies it is spread over: a failed copy meets a failed
    response, and a copy that has left [processing] meets a response that
    has left it.  (The spread takes [errorMessage] and [processedAt] from
    the local copy when the response lacks them.) *)
Theorem status_invariant_preserved (a : Action) (g : Gateway) (s : Store) :
  gateway_consistent g ->
  store_consistent s ->
  (forall invoiceId fieldName vt R loc,
     a = do_submitFieldFeedback invoiceId fieldName vt ->
     g _ (feedback_call invoiceId fieldName vt) = Resolved (Some R) ->
     held_with_id invoiceId s loc -> no_step_back loc R) ->
  store_consistent (fst (run g (perform a) s)).
Proof.
  intros (Hlist & Hdetail & Hfeedback) (Hl & Hc) Hback.
  destruct a as [query|file|invoiceId|invoiceId|invoiceId fieldName vt| |];
    cbn [perform]; rewrite ?run_void.
  - rewrite fetch_run. destruct (g _ (getInvoices query)) eqn:E; split; cbn; eauto.
  - rewrite upload_run. destruct (g _ (uploadInvoice_call file)); [|split; cbn; eauto].
    destruct (g _ (getInvoices None)) eqn:E; split; cbn; eauto.
  - rewrite detail_run. destruct (g _ (getInvoiceById invoiceId)) eqn:E; split; cbn; eauto.
    intros cur [= <-]. eauto.
  - rewrite download_run. destruct (g _ _); split; cbn; eauto.
  - cbn [fst].
    destruct (g _ (feedback_call invoiceId fieldName vt)) as [o|e] eqn:Hg.
    2:{ rewrite (submit_run_rejected g s _ _ _ e Hg). split; cbn; eauto. }
    destruct (response_accepted o) eqn:Hacc.
    2:{ rewrite (submit_run_invalid g s _ _ _ o Hg);
          [split; cbn; eauto | destruct o; [exact Hacc | exact I]]. }
    destruct o as [R|]; [|discriminate].
    rewrite (submit_run_accepted g s _ _ _ R Hg Hacc). cbn [fst].
    assert (status_consistent R) as HR by (eapply Hfeedback; exact Hg).
    assert (forall loc, held_with_id invoiceId s loc -> no_step_back loc R) as Hb
      by (intros loc; eapply Hback; [reflexivity | exact Hg]).
    split.
    + destruct (first_match_or_none (id_is invoiceId) (invoices s)) as [Hn | (i & e & H)].
      * rewrite update_list_none; rewrite update_current_invoices; auto.
      * rewrite (update_list_first invoiceId R _ i e)
          by (rewrite update_current_invoices; exact H).
        rewrite update_current_invoices. cbn [invoices set_invoices set_error].
        destruct H as (Hi & He & _).
        assert (e ∈ invoices s) as Hin by (eapply list_elem_of_lookup_2; exact Hi).
        apply Forall_insert; [exact Hl|].
        apply spread_feedback_consistent; auto.
        -- rewrite Forall_forall in Hl. auto.
        -- apply Hb. split; auto.
    + rewrite update_list_current. unfold update_current. cbn [currentInvoice set_error].
      destruct (currentInvoice s) as [cur|] eqn:Ecur; [|cbn; rewrite Ecur; discriminate].
      destruct (id_is invoiceId cur) eqn:Hid; cbn; [|rewrite Ecur; auto].
      intros c [= <-].
      apply spread_feedback_consistent; auto. apply Hb. split; auto.
  - split; cbn; auto.
  - split; cbn; auto. discriminate.
Qed.

Lemma status_invariant_preserved_witness :
  gateway_consistent (gateway_answering (Some sample_echo))
  /\ store_consistent sample_store
  /\ store_consistent
       (fst (run (gateway_answering (Some sample_echo))
               (perform (do_submitFieldFeedback "inv-1" "totalAmount" vote_upvote))
               sample_store)).
Proof.
  assert (gateway_consistent (gateway_answering (Some sample_echo))) as Hg.
  { apply gateway_answering_consistent. intros R [= <-].
    apply (bool_decide_unpack _). vm_compute. exact I. }
  assert (store_consistent sample_store) as Hs.
  { split.
    - apply (bool_decide_unpack _). vm_compute. exact I.
    - intros cur [= <-]. apply (bool_decide_unpack _). vm_compute. exact I. }
  split; [exact Hg | split; [exact Hs|]].
  apply (status_invariant_preserved
           (do_submitFieldFeedback "inv-1" "totalAmount" vote_upvote)
           (gateway_answering (Some sample_echo)) sample_store Hg Hs).
  intros invoiceId fieldName vt R loc _ [= <-] (Hheld & _).
  assert (status loc = processed) as Hst.
  { destruct Hheld as [[= <-] | Hin]; [reflexivity|].
    apply list_elem_of_In in Hin. simpl in Hin.
    destruct Hin as [<- | [<- | []]]; reflexivity. }
  split; [rewrite Hst; discriminate | intros _; discriminate].
Defined.

(** C6, counterexample to consistent responses being enough -- The gateway delivers consistent invoices
    and the store is consistent, with a failed copy of [inv-1] in both
    slots; the feedback response reports [inv-1] as processed, with no
    error message; after [submitFieldFeedback] the copies are processed and
    still carry the old error message. *)
Lemma feedback_breaks_status_invariant :
  gateway_consistent (gateway_answering (Some sample_echo)) /\
  store_consistent sample_store_failed /\
  let s' := fst (run (gateway_answering (Some sample_echo))
                   (perform (do_submitFieldFeedback "inv-1" "totalAmount" vote_upvote))
                   sample_store_failed) in
  (exists cur', currentInvoice s' = Some cur' /\
     status cur' = processed /\ errorMessage cur' = Some "OCR failed") /\
  ~ store_consistent s'.
Proof.
  split; [|split; [|split]].
  - apply gateway_answering_consistent. intros R [= <-].
    apply (bool_decide_unpack _). vm_compute. exact I.
  - split.
    + apply (bool_decide_unpack _). vm_compute. exact I.
    + intros cur [= <-]. apply (bool_decide_unpack _). vm_compute. exact I.
  - eexists. split; [reflexivity|]. split; reflexivity.
  - intros (_ & Hc). destruct (Hc _ eq_refl) as ((_ & H) & _).
    cbn in H. assert (processed = failed) by (apply H; eauto). discriminate.
Qed.

(** ** The sorted view *)

Example iso_date_getTime_epoch : iso_date_getTime "1970-01-01" = Some 0.
Proof. reflexivity. Qed.

Example iso_date_getTime_2024 :
  iso_date_getTime "2024-01-01" = Some 1704067200000 /\
  iso_date_getTime "2024-02-01" = Some 1706745600000 /\
  iso_date_getTime "2024-03-01" = Some 1709251200000.
Proof. repeat split. Qed.

Example iso_date_getTime_not_a_date :
  iso_date_getTime "2023-02-29" = None /\ iso_date_getTime "soon" = None.
Proof. split; reflexivity. Qed.

(** Session-local tallies: two of five cached invoices are in
    [processing]. *)
Example processingInvoices_two_of_five :
  processingInvoices
    (set_invoices [sample_january; sample_local; sample_march; sample_other;
                   sample_failed "inv-9" "2024-01-05"] initial_store) = 2%nat.
Proof. reflexivity. Qed.


Lemma sort_insert_perm {A} (cmp : A -> A -> option Z) (x : A) (l : list A) :
  sort_insert cmp x l ≡ₚ x :: l.
Proof.
  induction l as [|y l IH]; simpl; [reflexivity|].
  destruct (comes_first (cmp x y)); [reflexivity|].
  rewrite IH. apply perm_swap.
Qed.

Lemma array_sort_perm {A} (cmp : A -> A -> option Z) (l : list A) :
  array_sort cmp l ≡ₚ l.
Proof.
  induction l as [|x l IH]; simpl; [reflexivity|].
  now rewrite sort_insert_perm, IH.
Qed.

Section SortedView.
Variable getTime : string -> option Z.

Let time (inv : Invoice) : option Z := getTime (uploadedAt inv).
Let valid (inv : Invoice) : Prop := is_Some (time inv).
Let cmp := by_upload_desc getTime.
Let newer := newer_or_same getTime.

Lemma comes_first_newer (a b : Invoice) :
  valid a -> valid b -> (comes_first (cmp a b) = true <-> newer a b).
Proof.
  intros [ta Ha] [tb Hb]. unfold cmp, newer, by_upload_desc, newer_or_same.
  fold (time a) (time b). rewrite Ha, Hb. simpl. rewrite Z.leb_le. lia.
Qed.

Lemma passed_over_is_newer (a b : Invoice) :
  comes_first (cmp a b) = false ->
  exists ta tb, time a = Some ta /\ time b = Some tb /\ ta < tb.
Proof.
  unfold cmp, by_upload_desc. fold (time a) (time b).
  destruct (time a) as [ta|], (time b) as [tb|]; simpl; try discriminate.
  intros H. apply Z.leb_gt in H. exists ta, tb. repeat split. lia.
Qed.

Lemma newer_trans (a b c : Invoice) : newer a b -> newer b c -> newer a c.
Proof.
  unfold newer, newer_or_same.
  destruct (getTime (uploadedAt a)), (getTime (uploadedAt b)),
    (getTime (uploadedAt c)); try tauto. lia.
Qed.

Lemma sort_insert_sorted (x : Invoice) (l : list Invoice) :
  valid x -> Forall valid l ->
  StronglySorted newer l -> StronglySorted newer (sort_insert cmp x l).
Proof.
  intros Hx Hl Hs. induction Hs as [|y l Hs IH Hy]; simpl.
  - constructor; constructor.
  - apply Forall_cons in Hl as (Hvy & Hl).
    destruct (comes_first (cmp x y)) eqn:E.
    + apply comes_first_newer in E; auto.
      constructor; [now constructor|].
      constructor; [exact E|].
      eapply Forall_impl; [exact Hy|]. intros z Hz. now apply (newer_trans x y z).
    + constructor; [now apply IH|].
      rewrite sort_insert_perm. constructor; [|exact Hy].
      destruct (passed_over_is_newer x y E) as (tx & ty & Htx & Hty & Hlt).
      unfold newer, newer_or_same. fold (time y) (time x).
      rewrite Htx, Hty. lia.
Qed.

Lemma array_sort_sorted (l : list Invoice) :
  Forall valid l -> StronglySorted newer (array_sort cmp l).
Proof.
  induction l as [|x l IH]; intros Hl; simpl; [constructor|].
  apply Forall_cons in Hl as (Hx & Hl).
  apply sort_insert_sorted; auto.
  now rewrite array_sort_perm.
Qed.





End SortedView.



(** * Further properties of the store *)

(** ** Tallies *)

(** X1 -- The three tallies partition the cached list: the numbers of
    processing, processed and failed invoices add up to its length. *)
Theorem tallies_partition_list (s : Store) :
  (processingInvoices s + processedInvoices s + failedInvoices s)%nat
  = length (invoices s).
Proof.
  unfold processingInvoices, processedInvoices, failedInvoices, count_where.
  induction (invoices s) as [|inv l IH]; [reflexivity|].
  cbn [List.filter]. destruct (status inv); cbn [status_eqb length] in *; lia.
Qed.

(** ** Fetching *)

(** X2 -- Two list fetches in flight: the response that settles last
    determines the list and the total, also when its request was dispatched
    first; and the first fetch to settle clears the loading flag while the
    other is still in flight. *)
Theorem fetch_last_response_wins (s : Store) (qa qb : option InvoiceQuery)
    (ra rb : InvoiceListResponse) :
  exists sa ka sb kb sb' sa',
    fetchInvoices qa s = Pending sa (getInvoices qa) ka /\
    fetchInvoices qb sa = Pending sb (getInvoices qb) kb /\
    kb (Resolved rb) sb = Done sb' (Normal tt) /\
    loading sb' = false /\
    invoices sb' = resp_invoices rb /\
    ka (Resolved ra) sb' = Done sa' (Normal tt) /\
    invoices sa' = resp_invoices ra /\ total sa' = resp_total ra.
Proof.
  do 6 eexists. repeat split.
Qed.

(** X3 -- [fetchInvoiceDetail] replaces the current slot wholesale: on
    success the slot holds exactly the delivered invoice (nothing of the
    previous one survives) and the action returns it; on failure the slot
    keeps what it held and the error slot gets a non-empty message.  The
    list and the total are never written. *)
Theorem detail_replaces_wholesale (g : Gateway) (s : Store) (invoiceId : string) :
  let s' := fst (run g (fetchInvoiceDetail invoiceId) s) in
  let r := snd (run g (fetchInvoiceDetail invoiceId) s) in
  invoices s' = invoices s /\ total s' = total s /\ loading s' = false /\
  (forall inv, g _ (getInvoiceById invoiceId) = Resolved inv ->
     r = Normal inv /\ currentInvoice s' = Some inv /\ error s' = None) /\
  (forall e, g _ (getInvoiceById invoiceId) = Rejected e ->
     r = Thrown e /\ currentInvoice s' = currentInvoice s /\
     exists msg, error s' = Some msg /\ msg <> "").
Proof.
  cbn zeta. rewrite detail_run.
  destruct (g _ (getInvoiceById invoiceId)) as [inv|e];
    (split; [reflexivity | split; [reflexivity | split; [reflexivity | split]]]);
    intros x Hx; try discriminate Hx; injection Hx as <-.
  - repeat split.
  - split; [reflexivity | split; [reflexivity|]].
    eexists. split; [reflexivity|]. now apply or_else_nonempty.
Qed.

Lemma detail_replaces_wholesale_witness :
  gateway_answering None _ (getInvoiceById "inv-1") = Resolved sample_local
  /\ currentInvoice (fst (run (gateway_answering None) (fetchInvoiceDetail "inv-1")
                            sample_store_list_only)) = Some sample_local
  /\ invoices (fst (run (gateway_answering None) (fetchInvoiceDetail "inv-1")
                      sample_store_list_only)) = invoices sample_store_list_only.
Proof.
  destruct (detail_replaces_wholesale (gateway_answering None) sample_store_list_only
              "inv-1") as (Hl & _ & _ & Hok & _).
  split; [reflexivity | split; [|exact Hl]].
  exact (proj1 (proj2 (Hok sample_local eq_refl))).
Defined.

(** X4 -- [getDownloadUrl] is a pass-through: on every outcome the list,
    the current invoice and the total are what they were; the URL of the
    gateway is returned as it is, and a rejection is thrown again. *)
Theorem download_has_no_cache_effect (g : Gateway) (s : Store) (invoiceId : string) :
  let s' := fst (run g (getDownloadUrl invoiceId) s) in
  invoices s' = invoices s /\ currentInvoice s' = currentInvoice s /\
  total s' = total s /\
  snd (run g (getDownloadUrl invoiceId) s)
  = match g _ (getDownloadUrl_call invoiceId) with
    | Resolved url => Normal url
    | Rejected e => Thrown e
    end.
Proof.
  cbn zeta. rewrite download_run.
  destruct (g _ (getDownloadUrl_call invoiceId)); repeat split.
Qed.

(** ** Upload *)

(** X5 -- An upload whose refresh fails is reported as a failed upload: when
    the gateway acknowledges the file and then rejects the list call with
    [e], [uploadInvoice] throws [e], the acknowledgment is not returned, the
    list and the total keep their old content, and the error slot holds the
    message of [e] or, when it has none, 'Failed to upload invoice'. *)
Theorem upload_refresh_failure (g : Gateway) (s : Store) (file : File)
    (ack : InvoiceResponse) (e : JsError) :
  g _ (uploadInvoice_call file) = Resolved ack ->
  g _ (getInvoices None) = Rejected e ->
  exists s',
    run g (uploadInvoice file) s = (s', Thrown e) /\
    invoices s' = invoices s /\ total s' = total s /\
    error s' = Some (or_else (message e) "Failed to upload invoice") /\
    loading s' = false.
Proof.
  intros Hu Hl. rewrite upload_run, Hu. cbn zeta. rewrite Hl.
  eexists. split; [reflexivity|]. repeat split.
Qed.

Lemma upload_refresh_failure_witness :
  gateway_down_after_upload _ (uploadInvoice_call sample_file) = Resolved sample_ack
  /\ gateway_down_after_upload _ (getInvoices None) = Rejected network_error
  /\ exists s',
       run gateway_down_after_upload (uploadInvoice sample_file) sample_store
       = (s', Thrown network_error) /\
       invoices s' = invoices sample_store /\ total s' = total sample_store /\
       error s' = Some (or_else (message network_error) "Failed to upload invoice") /\
       loading s' = false.
Proof.
  split; [reflexivity | split; [reflexivity|]].
  exact (upload_refresh_failure gateway_down_after_upload sample_store sample_file
           sample_ack network_error eq_refl eq_refl).
Defined.

(** ** Feedback: what it leaves alone *)

Lemma update_list_frame (invoiceId : string) (R : Invoice) (s : Store) :
  length (invoices (update_list invoiceId R s)) = length (invoices s) /\
  forall j e, invoices s !! j = Some e -> id_is invoiceId e = false ->
    invoices (update_list invoiceId R s) !! j = Some e.
Proof.
  destruct (first_match_or_none (id_is invoiceId) (invoices s)) as [Hn | (i & e0 & H)].
  - rewrite update_list_none by exact Hn. auto.
  - rewrite (update_list_first invoiceId R s i e0 H). cbn [invoices set_invoices].
    split; [apply length_insert|].
    intros j e Hj He. destruct H as (Hi & He0 & _).
    destruct (decide (j = i)) as [->|Hne]; [congruence|].
    now rewrite list_lookup_insert_ne by congruence.
Qed.

(** X6 -- The feedback action writes nothing but the two copies with the
    submitted id: on every outcome of the gateway the list keeps its
    length, every list entry with another id stays where and what it was, a
    current invoice with another id stays, and the total and the loading
    flag are what they were. *)
Theorem feedback_frame (g : Gateway) (s : Store) (invoiceId fieldName : string)
    (vt : VoteIntent) :
  let s' := fst (run g (submitFieldFeedback invoiceId fieldName vt) s) in
  length (invoices s') = length (invoices s) /\
  (forall j e, invoices s !! j = Some e -> id_is invoiceId e = false ->
     invoices s' !! j = Some e) /\
  (current_is invoiceId s = false -> currentInvoice s' = currentInvoice s) /\
  total s' = total s /\ loading s' = loading s.
Proof.
  cbn zeta.
  destruct (g _ (feedback_call invoiceId fieldName vt)) as [o|e] eqn:Hg.
  - destruct (response_accepted o) eqn:Hacc.
    + destruct o as [R|]; [|discriminate].
      rewrite (submit_run_accepted g s _ _ _ R Hg Hacc). cbn [fst].
      destruct (update_list_frame invoiceId R (update_current invoiceId R (set_error None s)))
        as (Hlen & Hent).
      rewrite update_current_invoices in Hlen, Hent.
      destruct (update_slots_flags invoiceId R (set_error None s)) as (_ & Hl & Ht).
      repeat split; auto.
      intros Hc. rewrite update_list_current, update_current_miss; auto.
    + rewrite (submit_run_invalid g s _ _ _ o Hg); [repeat split; auto|].
      destruct o; [exact Hacc | exact I].
  - rewrite (submit_run_rejected g s _ _ _ e Hg). repeat split; auto.
Qed.

Lemma feedback_frame_witness :
  invoices sample_store !! 0%nat = Some sample_other
  /\ id_is "inv-1" sample_other = false
  /\ invoices (fst (run (gateway_answering (Some sample_echo))
                      (submitFieldFeedback "inv-1" "totalAmount" vote_upvote)
                      sample_store)) !! 0%nat = Some sample_other.
Proof.
  destruct (feedback_frame (gateway_answering (Some sample_echo)) sample_store
              "inv-1" "totalAmount" vote_upvote) as (_ & Hent & _).
  split; [reflexivity | split; [reflexivity|]].
  exact (Hent 0%nat sample_other eq_refl eq_refl).
Defined.

(** X7 -- A feedback call that the gateway rejects changes neither slot:
    the action throws the same error, the list and the current invoice are
    what they were, and the error slot holds the error's message or, when
    it has none, 'Failed to submit feedback'. *)
Theorem feedback_rejected_preserves_slots (g : Gateway) (s : Store)
    (invoiceId fieldName : string) (vt : VoteIntent) (e : JsError) :
  g _ (feedback_call invoiceId fieldName vt) = Rejected e ->
  exists s',
    run g (submitFieldFeedback invoiceId fieldName vt) s = (s', Thrown e) /\
    invoices s' = invoices s /\ currentInvoice s' = currentInvoice s /\
    error s' = Some (or_else (message e) "Failed to submit feedback") /\
    error s' <> Some "".
Proof.
  intros Hg. rewrite (submit_run_rejected g s _ _ _ e Hg).
  eexists. split; [reflexivity|]. repeat split.
  cbn. intros [= H]. now apply (or_else_nonempty (message e) "Failed to submit feedback").
Qed.

Lemma feedback_rejected_preserves_slots_witness :
  gateway_down _ (feedback_call "inv-1" "totalAmount" vote_upvote) = Rejected network_error
  /\ exists s',
       run gateway_down (submitFieldFeedback "inv-1" "totalAmount" vote_upvote) sample_store
       = (s', Thrown network_error) /\
       invoices s' = invoices sample_store /\
       currentInvoice s' = currentInvoice sample_store /\
       error s' = Some (or_else (message network_error) "Failed to submit feedback") /\
       error s' <> Some "".
Proof.
  split; [reflexivity|].
  exact (feedback_rejected_preserves_slots gateway_down sample_store
           "inv-1" "totalAmount" vote_upvote network_error eq_refl).
Defined.

(** ** Feedback: the same echo twice *)

Lemma spread_key_idem {A} (a b : option A) :
  spread_key (spread_key a b) b = spread_key a b.
Proof. now destruct b. Qed.

Lemma spread_feedback_idem (loc R : Invoice) :
  spread_feedback (spread_feedback loc R) R = spread_feedback loc R.
Proof.
  unfold spread_feedback at 1 3. cbn [id userId fileName storageUrl status
    invoiceNumber invoiceDate dueDate vendorName supplierName supplierRuc
    totalAmount taxAmount subtotal currency lineItems ocrEngine ocrConfidence
    fieldFeedback uploadedAt processedAt errorMessage spread_feedback].
  now rewrite !spread_key_idem.
Qed.

Lemma set_error_same (s : Store) (e : option string) :
  error s = e -> set_error e s = s.
Proof. destruct s. cbn. now intros ->. Qed.

Lemma update_current_idem (invoiceId : string) (R : Invoice) (s : Store) :
  truthy (id R) = true -> id_is invoiceId R = true ->
  update_current invoiceId R (update_current invoiceId R s) = update_current invoiceId R s.
Proof.
  intros Ht HR. destruct s as [l c lo er to]. unfold update_current.
  cbn [currentInvoice]. destruct c as [cur|]; [|reflexivity].
  destruct (id_is invoiceId cur) eqn:Hid; cbn [currentInvoice set_currentInvoice];
    [|now rewrite Hid].
  rewrite id_is_spread by exact Ht. rewrite HR, spread_feedback_idem. reflexivity.
Qed.

Lemma update_current_list_comm (invoiceId : string) (R : Invoice) (s : Store) :
  update_current invoiceId R (update_list invoiceId R s)
  = update_list invoiceId R (update_current invoiceId R s).
Proof.
  destruct s as [l c lo er to]. unfold update_list.
  rewrite update_current_invoices. cbn [invoices].
  destruct (findIndex (id_is invoiceId) l =? -1); [reflexivity|].
  unfold update_current. cbn [currentInvoice set_invoices].
  destruct c as [cur|]; [|reflexivity].
  destruct (id_is invoiceId cur); reflexivity.
Qed.

Lemma update_list_idem (invoiceId : string) (R : Invoice) (s : Store) :
  truthy (id R) = true -> id_is invoiceId R = true ->
  update_list invoiceId R (update_list invoiceId R s) = update_list invoiceId R s.
Proof.
  intros Ht HR.
  destruct (first_match_or_none (id_is invoiceId) (invoices s)) as [Hn | (i & e & H)].
  - rewrite (update_list_none invoiceId R s Hn). now apply update_list_none.
  - rewrite (update_list_first invoiceId R s i e H).
    pose proof (first_match_after invoiceId R _ i e HR Ht H) as H1.
    rewrite (update_list_first invoiceId R _ i (spread_feedback e R)) by exact H1.
    cbn [invoices set_invoices]. rewrite list_insert_insert_eq, spread_feedback_idem.
    destruct s. reflexivity.
Qed.

Lemma update_slots_idem (invoiceId : string) (R : Invoice) (s : Store) :
  truthy (id R) = true -> id_is invoiceId R = true ->
  let s1 := update_list invoiceId R (update_current invoiceId R s) in
  update_list invoiceId R (update_current invoiceId R s1) = s1.
Proof.
  intros Ht HR. cbn zeta.
  rewrite update_current_list_comm, update_current_idem by assumption.
  now apply update_list_idem.
Qed.

(** X8 -- Receiving the same echo twice is the same as receiving it once:
    when the gateway answers the feedback call with an invoice that carries
    the submitted id (or does not accept the call at all), running the
    action again on the store it produced gives that same store and the
    same result. *)
Theorem feedback_echo_idempotent (g : Gateway) (s : Store)
    (invoiceId fieldName : string) (vt : VoteIntent) :
  (forall R, g _ (feedback_call invoiceId fieldName vt) = Resolved (Some R) ->
     truthy (id R) = true -> id_is invoiceId R = true) ->
  let once := run g (submitFieldFeedback invoiceId fieldName vt) s in
  run g (submitFieldFeedback invoiceId fieldName vt) (fst once) = once.
Proof.
  intros Hid. cbn zeta.
  destruct (g _ (feedback_call invoiceId fieldName vt)) as [o|e] eqn:Hg.
  - destruct (response_accepted o) eqn:Hacc.
    + destruct o as [R|]; [|discriminate].
      rewrite !(submit_run_accepted g _ _ _ _ R Hg Hacc). cbn [fst]. f_equal.
      pose proof (update_slots_flags invoiceId R (set_error None s)) as (He & _).
      rewrite set_error_same by exact He.
      apply update_slots_idem; auto.
    + assert (match o with Some R => truthy (id R) = false | None => True end) as Hbad
        by (destruct o; [exact Hacc | exact I]).
      rewrite !(submit_run_invalid g _ _ _ _ o Hg Hbad). reflexivity.
  - rewrite !(submit_run_rejected g _ _ _ _ e Hg). reflexivity.
Qed.

Lemma feedback_echo_idempotent_witness :
  id_is "inv-1" sample_echo = true
  /\ run (gateway_answering (Some sample_echo))
         (submitFieldFeedback "inv-1" "totalAmount" vote_upvote)
         (fst (run (gateway_answering (Some sample_echo))
                 (submitFieldFeedback "inv-1" "totalAmount" vote_upvote) sample_store))
     = run (gateway_answering (Some sample_echo))
         (submitFieldFeedback "inv-1" "totalAmount" vote_upvote) sample_store.
Proof.
  split; [reflexivity|].
  apply (feedback_echo_idempotent (gateway_answering (Some sample_echo)) sample_store
           "inv-1" "totalAmount" vote_upvote).
  intros R [= <-] _. reflexivity.
Defined.

(** ** Feedback: the ids of the list *)

Lemma id_is_Some (invoiceId : string) (inv : Invoice) :
  id_is invoiceId inv = true -> id inv = Some invoiceId.
Proof.
  unfold id_is. destruct (id inv) as [x|]; [|discriminate].
  intros H. apply String.eqb_eq in H. now subst.
Qed.

(** X9 -- When the gateway echoes the submitted id, the feedback action
    keeps the ids of the list, in their order: the list is a cache keyed
    by id before and after, and distinct ids stay distinct. *)
Theorem feedback_keeps_ids (g : Gateway) (s : Store)
    (invoiceId fieldName : string) (vt : VoteIntent) :
  (forall R, g _ (feedback_call invoiceId fieldName vt) = Resolved (Some R) ->
     truthy (id R) = true -> id_is invoiceId R = true) ->
  let s' := fst (run g (submitFieldFeedback invoiceId fieldName vt) s) in
  id <$> invoices s' = id <$> invoices s /\
  (unique_ids (invoices s) -> unique_ids (invoices s')).
Proof.
  intros Hid. cbn zeta.
  assert (id <$> invoices (fst (run g (submitFieldFeedback invoiceId fieldName vt) s))
          = id <$> invoices s) as Hids.
  { destruct (g _ (feedback_call invoiceId fieldName vt)) as [o|e] eqn:Hg.
    - destruct (response_accepted o) eqn:Hacc.
      + destruct o as [R|]; [|discriminate].
        rewrite (submit_run_accepted g s _ _ _ R Hg Hacc). cbn [fst].
        pose proof (Hid R eq_refl Hacc) as HR.
        destruct (first_match_or_none (id_is invoiceId) (invoices s)) as [Hn | (i & e & H)].
        * rewrite update_list_none; rewrite update_current_invoices; auto.
        * rewrite (update_list_first invoiceId R _ i e)
            by (rewrite update_current_invoices; exact H).
          rewrite update_current_invoices. cbn [invoices set_invoices set_error].
          rewrite list_fmap_insert. apply list_insert_id.
          destruct H as (Hi & He & _).
          rewrite list_lookup_fmap, Hi. cbn. f_equal.
          rewrite (id_is_Some invoiceId e He).
          cbn [spread_feedback id]. rewrite (id_is_Some invoiceId R HR). reflexivity.
      + rewrite (submit_run_invalid g s _ _ _ o Hg); [reflexivity|].
        destruct o; [exact Hacc | exact I].
    - now rewrite (submit_run_rejected g s _ _ _ e Hg). }
  split; [exact Hids|]. unfold unique_ids. now rewrite Hids.
Qed.

Lemma feedback_keeps_ids_witness :
  unique_ids (invoices sample_store)
  /\ unique_ids (invoices (fst (run (gateway_answering (Some sample_echo))
                                  (submitFieldFeedback "inv-1" "totalAmount" vote_upvote)
                                  sample_store))).
Proof.
  assert (unique_ids (invoices sample_store)) as Hnd.
  { apply (bool_decide_unpack _). vm_compute. exact I. }
  split; [exact Hnd|].
  apply (feedback_keeps_ids (gateway_answering (Some sample_echo)) sample_store
           "inv-1" "totalAmount" vote_upvote); [|exact Hnd].
  intros R [= <-] _. reflexivity.
Defined.

(** ** The sorted view of a list that is already in order *)

Lemma array_sort_sorted_fix (getTime : string -> option Z) (l : list Invoice) :
  StronglySorted (newer_or_same getTime) l ->
  array_sort (by_upload_desc getTime) l = l.
Proof.
  induction 1 as [|x l Hs IH Hx]; [reflexivity|].
  cbn [array_sort]. rewrite IH. destruct l as [|y l']; [reflexivity|].
  cbn [sort_insert]. apply Forall_cons in Hx as (Hxy & _).
  unfold newer_or_same in Hxy. unfold by_upload_desc.
  destruct (getTime (uploadedAt x)) as [tx|]; [|contradiction].
  destruct (getTime (uploadedAt y)) as [ty|]; [|contradiction].
  cbn [js_sub comes_first]. destruct (Z.leb_spec (ty - tx) 0); [reflexivity | lia].
Qed.

(** X10 -- A list that arrives newest first is viewed as it is, ties
    included; and the sorted view of any list of dated invoices is a
    fixed point: sorting it again changes nothing. *)
Theorem sortedInvoices_fixed_point (getTime : string -> option Z) (s : Store) :
  (StronglySorted (newer_or_same getTime) (invoices s) ->
     sortedInvoices getTime s = invoices s) /\
  (valid_dates getTime (invoices s) ->
     sortedInvoices getTime (set_invoices (sortedInvoices getTime s) s)
     = sortedInvoices getTime s).
Proof.
  unfold sortedInvoices. split.
  - apply array_sort_sorted_fix.
  - intros Hv. cbn [invoices set_invoices].
    apply array_sort_sorted_fix. now apply array_sort_sorted.
Qed.

Lemma sortedInvoices_fixed_point_witness :
  valid_dates iso_date_getTime (invoices sample_store_2024)
  /\ sortedInvoices iso_date_getTime
       (set_invoices (sortedInvoices iso_date_getTime sample_store_2024) sample_store_2024)
     = [sample_march; sample_february; sample_january].
Proof.
  assert (valid_dates iso_date_getTime (invoices sample_store_2024)) as Hv.
  { apply (bool_decide_unpack _). vm_compute. exact I. }
  split; [exact Hv|].
  rewrite (proj2 (sortedInvoices_fixed_point iso_date_getTime sample_store_2024) Hv).
  reflexivity.
Defined.

(** * Around the store: properties *)

Lemma run_on_completion {S A B} (g : Gateway) (m : Susp S A)
    (f : Completion A -> Prog S B) :
  run_susp g (on_completion m f)
  = run_susp g (f (snd (run_susp g m)) (fst (run_susp g m))).
Proof. induction m as [s r | s R c k IH]; cbn; auto. Qed.

Lemma run_in_store {A} (g : Gateway) (d : DetailView) (m : Susp Store A) :
  run_susp g (in_store_susp d m)
  = (set_store (fst (run_susp g m)) d, snd (run_susp g m)).
Proof.
  revert d. induction m as [s r | s R c k IH]; intros d; cbn; [reflexivity|].
  rewrite IH. reflexivity.
Qed.

(** ** The handler of a vote *)

(** A run of the handler that is not blocked. *)
Lemma handleFeedback_run (g : Gateway) (d : DetailView)
    (props_invoiceId fieldName : string) (vt : VoteIntent) :
  feedback_blocked d = false ->
  run g (handleFeedback props_invoiceId fieldName vt) d
  = ({| store := fst (run g (submitFieldFeedback props_invoiceId fieldName vt) (store d));
        downloadLoading := downloadLoading d; feedbackLoading := false |}, Normal tt).
Proof.
  intros Hb. unfold run, handleFeedback, bind, get. cbn [on_completion]. rewrite Hb.
  unfold assign, try_catch_finally, try_finally, try_catch, bind.
  cbn [on_completion]. unfold in_store. rewrite !run_on_completion, run_in_store.
  cbn [fst snd store set_feedbackLoading].
  destruct (run_susp g (submitFieldFeedback props_invoiceId fieldName vt (store d)))
    as [s' [res|e]]; reflexivity.
Qed.

(** X11 -- [handleFeedback] never throws and never leaves its flag raised.
    When it is blocked (a vote in flight, or nothing on display) the state
    is untouched; otherwise, on every outcome of the gateway, the store
    ends as [submitFieldFeedback] leaves it, [feedbackLoading] is [false]
    and the error, if any, is swallowed. *)
Theorem handleFeedback_completes (g : Gateway) (d : DetailView)
    (props_invoiceId fieldName : string) (vt : VoteIntent) :
  exists d',
    run g (handleFeedback props_invoiceId fieldName vt) d = (d', Normal tt) /\
    downloadLoading d' = downloadLoading d /\
    (feedback_blocked d = true -> d' = d) /\
    (feedback_blocked d = false ->
       feedbackLoading d' = false /\
       store d' = fst (run g (submitFieldFeedback props_invoiceId fieldName vt) (store d))).
Proof.
  destruct (feedback_blocked d) eqn:Hb.
  - exists d. unfold run. rewrite handleFeedback_blocked by exact Hb.
    repeat split; auto; discriminate.
  - rewrite handleFeedback_run by exact Hb.
    eexists. split; [reflexivity|]. repeat split; auto; discriminate.
Qed.

(** X12 -- No double submission from the view: while a vote is suspended
    on its gateway call, every further [handleFeedback] returns at once,
    without a call and without touching the state. *)
Theorem handleFeedback_not_reentrant (d : DetailView)
    (props_invoiceId fieldName : string) (vt : VoteIntent) :
  feedback_blocked d = false ->
  exists d1 k,
    handleFeedback props_invoiceId fieldName vt d
    = Pending d1 (feedback_call props_invoiceId fieldName vt) k /\
    forall invoiceId' fieldName' vt',
      handleFeedback invoiceId' fieldName' vt' d1 = Done d1 (Normal tt).
Proof.
  intros Hb. destruct (handleFeedback_dispatches d props_invoiceId fieldName vt Hb) as (k & Hk).
  eexists _, k. split; [exact Hk|].
  intros. apply handleFeedback_blocked. reflexivity.
Qed.

Lemma handleFeedback_completes_witness :
  feedback_blocked sample_view = false
  /\ exists d',
       run gateway_down (handleFeedback "inv-1" "totalAmount" vote_upvote) sample_view
       = (d', Normal tt) /\
       feedbackLoading d' = false /\
       error (store d') = Some (or_else (message network_error) "Failed to submit feedback").
Proof.
  split; [reflexivity|].
  destruct (handleFeedback_completes gateway_down sample_view
              "inv-1" "totalAmount" vote_upvote) as (d' & Hrun & _ & _ & Hfree).
  destruct (Hfree eq_refl) as (Hflag & Hstore).
  exists d'. split; [exact Hrun | split; [exact Hflag|]].
  rewrite Hstore. reflexivity.
Defined.

Lemma handleFeedback_not_reentrant_witness :
  feedback_blocked sample_view = false
  /\ exists d1 k,
       handleFeedback "inv-1" "totalAmount" vote_upvote sample_view
       = Pending d1 (feedback_call "inv-1" "totalAmount" vote_upvote) k /\
       forall invoiceId' fieldName' vt',
         handleFeedback invoiceId' fieldName' vt' d1 = Done d1 (Normal tt).
Proof.
  split; [reflexivity|].
  exact (handleFeedback_not_reentrant sample_view "inv-1" "totalAmount" vote_upvote
           eq_refl).
Defined.

(** X13 -- The thumbs show the server's map.  [getFieldFeedback] answers
    [null] when nothing is on display or the invoice has no map; and after
    a vote on the invoice on display that the gateway accepted with the
    invoice [R], it answers, for every field, the vote that [R]'s map
    records for it -- [null] for every field when [R] carries no map. *)
Theorem getFieldFeedback_after_vote (g : Gateway) (d : DetailView)
    (props_invoiceId fieldName : string) (vt : VoteIntent) (R : Invoice) :
  (currentInvoice (store d) = None -> forall field, getFieldFeedback d field = None) /\
  (feedback_blocked d = false ->
   current_is props_invoiceId (store d) = true ->
   g _ (feedback_call props_invoiceId fieldName vt) = Resolved (Some R) ->
   truthy (id R) = true ->
   forall field,
     getFieldFeedback (fst (run g (handleFeedback props_invoiceId fieldName vt) d)) field
     = vote <$> (default ∅ (fieldFeedback R) !! field)).
Proof.
  split.
  - intros Hc field. unfold getFieldFeedback. now rewrite Hc.
  - intros Hb Hcur Hg Ht field.
    rewrite handleFeedback_run by exact Hb. cbn [fst].
    unfold getFieldFeedback. cbn [store].
    rewrite (submit_run_accepted g _ _ _ _ R Hg Ht). cbn [fst].
    rewrite update_list_current. unfold current_is in Hcur.
    destruct (currentInvoice (store d)) as [cur|] eqn:Ec; [|discriminate].
    rewrite (update_current_hit props_invoiceId R (set_error None (store d)) cur);
      [reflexivity | exact Ec | exact Hcur].
Qed.

Lemma getFieldFeedback_after_vote_witness :
  feedback_blocked sample_view = false
  /\ current_is "inv-1" (store sample_view) = true
  /\ getFieldFeedback sample_view "totalAmount" = None
  /\ getFieldFeedback
       (fst (run (gateway_answering (Some sample_echo))
               (handleFeedback "inv-1" "totalAmount" vote_upvote) sample_view))
       "totalAmount"
     = vote <$> (default ∅ (fieldFeedback sample_echo) !! "totalAmount").
Proof.
  split; [reflexivity | split; [reflexivity | split; [reflexivity|]]].
  exact (proj2 (getFieldFeedback_after_vote (gateway_answering (Some sample_echo))
                  sample_view "inv-1" "totalAmount" vote_upvote sample_echo)
           eq_refl eq_refl eq_refl eq_refl "totalAmount").
Defined.

(** X14 -- From a click to the call.  With an invoice on display and no
    vote in flight, a click on the up thumb dispatches the feedback call of
    the route's invoice for that field with [remove] when the field is
    shown as upvoted and with [upvote] otherwise (also when it is shown as
    downvoted: the switch is one call); the down thumb likewise.  A button
    that is loading dispatches nothing. *)
Theorem click_dispatches_toggle (d : DetailView) (props_invoiceId fieldName : string) :
  (feedback_blocked d = false ->
   (exists d1 k,
      click_upvote props_invoiceId fieldName false d
      = Pending d1
          (feedback_call props_invoiceId fieldName
             (match getFieldFeedback d fieldName with
              | Some upvote => vote_remove
              | _ => vote_upvote
              end)) k) /\
   (exists d1 k,
      click_downvote props_invoiceId fieldName false d
      = Pending d1
          (feedback_call props_invoiceId fieldName
             (match getFieldFeedback d fieldName with
              | Some downvote => vote_remove
              | _ => vote_downvote
              end)) k)) /\
  click_upvote props_invoiceId fieldName true d = Done d (Normal tt) /\
  click_downvote props_invoiceId fieldName true d = Done d (Normal tt).
Proof.
  split; [|split; reflexivity].
  intros Hb. split.
  - destruct (handleFeedback_dispatches d props_invoiceId fieldName
                (match getFieldFeedback d fieldName with
                 | Some upvote => vote_remove | _ => vote_upvote end) Hb) as (k & Hk).
    eexists _, k. exact Hk.
  - destruct (handleFeedback_dispatches d props_invoiceId fieldName
                (match getFieldFeedback d fieldName with
                 | Some downvote => vote_remove | _ => vote_downvote end) Hb) as (k & Hk).
    eexists _, k. exact Hk.
Qed.

Lemma click_dispatches_toggle_witness :
  feedback_blocked sample_view = false
  /\ getFieldFeedback sample_view "vendorName" = Some upvote
  /\ exists d1 k,
       click_upvote "inv-1" "vendorName" false sample_view
       = Pending d1 (feedback_call "inv-1" "vendorName" vote_remove) k.
Proof.
  split; [reflexivity | split; [reflexivity|]].
  exact (proj1 (proj1 (click_dispatches_toggle sample_view "inv-1" "vendorName") eq_refl)).
Defined.

(** X15 -- Opening the detail view never throws.  When the gateway delivers
    the invoice, it is on display afterwards and votes are enabled as far
    as the flag allows; when the gateway rejects, what was on display
    before stays in the slot and the store's error slot holds a non-empty
    message. *)
Theorem detail_onMounted_completes (g : Gateway) (d : DetailView)
    (props_invoiceId : string) :
  exists d',
    run g (detail_onMounted props_invoiceId) d = (d', Normal tt) /\
    feedbackLoading d' = feedbackLoading d /\
    loading (store d') = false /\
    (forall inv, g _ (getInvoiceById props_invoiceId) = Resolved inv ->
       currentInvoice (store d') = Some inv /\
       feedback_blocked d' = feedbackLoading d) /\
    (forall e, g _ (getInvoiceById props_invoiceId) = Rejected e ->
       currentInvoice (store d') = currentInvoice (store d) /\
       exists msg, error (store d') = Some msg /\ msg <> "").
Proof.
  unfold run, detail_onMounted, try_catch, bind, in_store.
  rewrite !run_on_completion, run_in_store. cbn [fst snd].
  fold (run g (fetchInvoiceDetail props_invoiceId) (store d)). rewrite detail_run.
  destruct (g _ (getInvoiceById props_invoiceId)) as [inv|e]; cbn;
    (eexists; split; [reflexivity|]; split; [reflexivity|]; split; [reflexivity|]; split);
    intros x Hx; try discriminate Hx; injection Hx as <-.
  - split; [reflexivity|]. unfold feedback_blocked. cbn. now destruct (feedbackLoading d).
  - split; [reflexivity|]. eexists. split; [reflexivity|]. now apply or_else_nonempty.
Qed.

Lemma detail_onMounted_completes_witness :
  gateway_down _ (getInvoiceById "inv-1") = Rejected network_error
  /\ exists d',
       run gateway_down (detail_onMounted "inv-1") sample_view = (d', Normal tt) /\
       currentInvoice (store d') = currentInvoice (store sample_view).
Proof.
  split; [reflexivity|].
  destruct (detail_onMounted_completes gateway_down sample_view "inv-1")
    as (d' & Hrun & _ & _ & _ & Hfail).
  exists d'. split; [exact Hrun|]. exact (proj1 (Hfail network_error eq_refl)).
Defined.

(** ** The composable *)

Lemma run_wrapped {A B} (g : Gateway) (p : Prog Store A) (data : A -> option B)
    (s : Store) :
  run g (try_catch (bind p (fun a => ret (succeeded (data a))))
                   (fun err => ret (failed_with err))) s
  = (fst (run g p s), Normal (answer_of data (snd (run g p s)))).
Proof.
  unfold run, try_catch, bind. rewrite !run_on_completion.
  destruct (run_susp g (p s)) as [s' [a|e]]; reflexivity.
Qed.

(** X16 -- The wrappers of [useInvoices] never throw and change the store
    exactly as the action they wrap: they answer [{success: true}] (with
    the action's value as [data], where it has one) when the action
    completes, and [{success: false, error: err.message}] when it throws.
    The [error] of the answer is the message of the rejection as it is,
    absent when the rejection has none, while the store's error slot then
    holds the action's default text. *)
Theorem useInvoices_never_throws (g : Gateway) (s : Store) :
  (forall query,
     run g (use_fetchInvoices query) s
     = (fst (run g (fetchInvoices query) s),
        Normal (answer_of (fun _ => None) (snd (run g (fetchInvoices query) s))))) /\
  (forall file,
     run g (use_uploadInvoice file) s
     = (fst (run g (uploadInvoice file) s),
        Normal (answer_of Some (snd (run g (uploadInvoice file) s))))) /\
  (forall invoiceId,
     run g (use_fetchInvoiceDetail invoiceId) s
     = (fst (run g (fetchInvoiceDetail invoiceId) s),
        Normal (answer_of Some (snd (run g (fetchInvoiceDetail invoiceId) s))))) /\
  (forall invoiceId,
     run g (use_getDownloadUrl invoiceId) s
     = (fst (run g (getDownloadUrl invoiceId) s),
        Normal (answer_of Some (snd (run g (getDownloadUrl invoiceId) s))))) /\
  (forall query e,
     g _ (getInvoices query) = Rejected e ->
     exists s' res,
       run g (use_fetchInvoices query) s = (s', Normal res) /\
       res_success res = false /\ res_error res = message e /\
       error s' = Some (or_else (message e) "Failed to fetch invoices") /\
       invoices s' = invoices s).
Proof.
  split; [|split; [|split; [|split]]]; try (intros; apply run_wrapped).
  intros query e Hg. unfold use_fetchInvoices.
  rewrite run_wrapped, fetch_run, Hg.
  eexists _, _. split; [reflexivity|]. repeat split.
Qed.

Lemma useInvoices_never_throws_witness :
  gateway_down _ (getInvoices None) = Rejected network_error
  /\ exists s' res,
       run gateway_down (use_fetchInvoices None) sample_store = (s', Normal res) /\
       res_success res = false /\
       res_error res = message network_error /\
       error s' = Some (or_else (message network_error) "Failed to fetch invoices") /\
       invoices s' = invoices sample_store.
Proof.
  split; [reflexivity|].
  exact (proj2 (proj2 (proj2 (proj2 (useInvoices_never_throws gateway_down sample_store))))
           None network_error eq_refl).
Defined.

(** ** The query string *)

(** X17 -- The parameters of the list call: each of [sortBy], [order],
    [page], [limit] is sent at most once and in that order; [page] and
    [limit] are sent exactly when they are given and not zero (a page or a
    limit of 0 is dropped like an absent one); without a query nothing is
    sent. *)
Theorem getInvoices_params_shape (toString : number -> string)
    (query : option InvoiceQuery) :
  let params := getInvoices_params toString query in
  fst <$> params `sublist_of` ["sortBy"; "order"; "page"; "limit"] /\
  ("page" ∈ fst <$> params <->
     exists n, query ≫= page = Some n /\ number_truthy n = true) /\
  ("limit" ∈ fst <$> params <->
     exists n, query ≫= limit = Some n /\ number_truthy n = true) /\
  getInvoices_params toString None = [].
Proof.
  cbn zeta. unfold getInvoices_params.
  destruct (query ≫= sortBy) as [sb|], (query ≫= order) as [od|],
    (query ≫= page) as [pg|], (query ≫= limit) as [lm|];
    try destruct (number_truthy pg) eqn:Hpg; try destruct (number_truthy lm) eqn:Hlm;
    cbn [app fmap list_fmap fst];
    (split; [repeat constructor|]);
    (split; [|split; [|reflexivity]]);
    (split; [intros Hin | intros (n & Hn & Ht)]);
    try (eexists; split; [reflexivity | assumption]);
    try discriminate Hn; try (injection Hn as <-; congruence);
    try (apply list_elem_of_In; cbn; tauto);
    try (apply list_elem_of_In in Hin; cbn in Hin;
         repeat destruct Hin as [Hin | Hin]; try discriminate Hin; contradiction).
Qed.

Lemma getInvoices_params_shape_witness :
  Some sample_query_page_zero ≫= page = Some 0%Q
  /\ ~ "page" ∈ fst <$> getInvoices_params (fun _ => "25") (Some sample_query_page_zero)
  /\ "limit" ∈ fst <$> getInvoices_params (fun _ => "25") (Some sample_query_page_zero).
Proof.
  destruct (getInvoices_params_shape (fun _ => "25") (Some sample_query_page_zero))
    as (_ & Hpage & Hlimit & _).
  split; [reflexivity | split].
  - intros Hin. apply Hpage in Hin as (n & [= <-] & Ht). discriminate Ht.
  - apply Hlimit. exists 25%Q. split; reflexivity.
Defined.

(** ** The response interceptor *)





(** X19 -- From the transport to the error slot.  When the list call fails
    in the transport, [fetchInvoices] leaves in the error slot, never
    empty: the connectivity text when no response came back; the server's
    message when the response has one; else the transport's message; and
    'Failed to fetch invoices' when that is empty too. *)
Theorem transport_failure_message {D} (failure : AxiosError D) (s : Store)
    (query : option InvoiceQuery) :
  let s' := fst (run (gateway_failing_with failure) (fetchInvoices query) s) in
  (exists msg, error s' = Some msg /\ msg <> "") /\
  (ax_response failure = None -> ax_request failure = true ->
     error s'
     = Some "Unable to connect to server. Please check your internet connection.") /\
  (forall response msg,
     ax_response failure = Some response ->
     response_error response ≫= body_message = Some msg -> msg <> "" ->
     error s' = Some msg) /\
  (forall response,
     ax_response failure = Some response ->
     truthy (response_error response ≫= body_message) = false ->
     error s' = Some (or_else (Some (ax_message failure)) "Failed to fetch invoices")).
Proof.
  cbn zeta. rewrite fetch_run. unfold gateway_failing_with. cbn [fst error set_loading
    set_error as_thrown message].
  split; [|split; [|split]].
  - eexists. split; [reflexivity|]. now apply or_else_nonempty.
  - intros Hr Hq. unfold reject_response. rewrite Hr, Hq. reflexivity.
  - intros response msg Hr Hm Hne. unfold reject_response. rewrite Hr.
    cbn [api_message]. rewrite Hm. cbn [or_else].
    destruct (String.eqb_spec msg ""); [contradiction|].
    cbn [or_else]. destruct (String.eqb_spec msg ""); [contradiction | reflexivity].
  - intros response Hr Hm. unfold reject_response. rewrite Hr. cbn [api_message].
    destruct (response_error response ≫= body_message) as [m|]; cbn in *.
    + destruct (String.eqb m ""); [reflexivity | discriminate].
    + reflexivity.
Qed.

Lemma transport_failure_message_witness :
  ax_response sample_offline = None /\ ax_request sample_offline = true
  /\ error (fst (run (gateway_failing_with sample_offline) (fetchInvoices None)
                   sample_store))
     = Some "Unable to connect to server. Please check your internet connection.".
Proof.
  split; [reflexivity | split; [reflexivity|]].
  exact (proj1 (proj2 (transport_failure_message sample_offline sample_store None))
           eq_refl eq_refl).
Defined.

(** * The other stores: properties *)

Lemma eff_run_on_completion {C S A B} (env : forall R, C R -> Outcome R)
    (m : Eff C S A) (f : Completion A -> S -> Eff C S B) :
  eff_run_from env (eff_on_completion m f)
  = eff_run_from env (f (snd (eff_run_from env m)) (fst (eff_run_from env m))).
Proof. induction m as [s r | s R c k IH]; cbn; auto. Qed.

(** A run of the frame of the auth store's actions, in terms of a run of
    its body. *)
Lemma auth_action_run {A} (env : AuthService) (dflt : string)
    (body : AuthStore -> Eff AuthCall AuthStore A) (s : AuthStore) :
  eff_run env (auth_action dflt body) s
  = let s0 := set_auth_error None (set_auth_loading true s) in
    match snd (eff_run env body s0) with
    | Normal a => (set_auth_loading false (fst (eff_run env body s0)), Normal a)
    | Thrown e =>
        (set_auth_loading false
           (set_auth_error (Some (or_else (message e) dflt)) (fst (eff_run env body s0))),
         Thrown e)
    end.
Proof.
  unfold eff_run, auth_action, eff_try_catch_finally, eff_try_finally, eff_try_catch,
    eff_bind, eff_assign. cbn [eff_on_completion].
  rewrite !eff_run_on_completion. cbn zeta.
  destruct (eff_run_from env (body _)) as [s1 [a|e]]; reflexivity.
Qed.

(** ** Session *)

(** X20 -- [logout] ends the session only when the SDK signs out: then the
    current user and the authenticated flag are cleared; when the SDK
    rejects, both stay as they were, the error slot gets a non-empty
    message and the rejection is thrown again.  The loading flag is down
    either way. *)
Theorem logout_clears_session (env : AuthService) (s : AuthStore) :
  let s' := fst (eff_run env logout s) in
  auth_loading s' = false /\
  (env _ signOut = Resolved tt ->
     snd (eff_run env logout s) = Normal tt /\
     currentUser s' = None /\ isAuthenticated s' = false /\ auth_error s' = None) /\
  (forall e, env _ signOut = Rejected e ->
     snd (eff_run env logout s) = Thrown e /\
     currentUser s' = currentUser s /\ isAuthenticated s' = isAuthenticated s /\
     exists msg, auth_error s' = Some msg /\ msg <> "").
Proof.
  cbn zeta. unfold logout. rewrite auth_action_run. cbn zeta.
  unfold eff_run. cbn. destruct (env _ signOut) as [[]|e]; cbn.
  - split; [reflexivity|]. split; [intros _; repeat split | intros e H; discriminate H].
  - split; [reflexivity|]. split; [intros H; discriminate H|].
    intros e' [= <-]. repeat split. eexists. split; [reflexivity|].
    now apply or_else_nonempty.
Qed.

Lemma logout_clears_session_witness :
  auth_service_down _ signOut = Rejected network_error
  /\ isAuthenticated (fst (eff_run auth_service_down logout sample_session)) = true
  /\ currentUser (fst (eff_run auth_service_down logout sample_session))
     = currentUser sample_session.
Proof.
  destruct (logout_clears_session auth_service_down sample_session) as (_ & _ & Hfail).
  destruct (Hfail network_error eq_refl) as (_ & Hu & Ha & _).
  split; [reflexivity | split; [exact Ha | exact Hu]].
Defined.

(** X21 -- Registering, logging in and asking for a verification mail
    never sign the user in: on every outcome [register], [login],
    [verifyEmail] and [resendVerification] leave the current user and the
    authenticated flag as they were (the flag is raised by the auth
    listener only), and the loading flag down. *)
Theorem credentials_leave_session (env : AuthService) (a : CredentialAction)
    (s : AuthStore) :
  let s' := fst (eff_run env (perform_credential a) s) in
  currentUser s' = currentUser s /\ isAuthenticated s' = isAuthenticated s /\
  auth_loading s' = false.
Proof.
  cbn zeta. destruct a as [em pw | em pw | [u|] | ]; unfold eff_run; cbn;
    try (destruct (env _ _); cbn); repeat split.
Qed.

(** X22 -- [verifyEmail] asks for the mail of the SDK's current user and of
    no one else; with no SDK user it sends nothing and still reports
    success: it finishes without a call, normally, with the error slot
    empty. *)
Theorem verifyEmail_without_user (s : AuthStore) :
  (forall u, exists s1 k,
     verifyEmail (Some u) s = Waiting s1 (sendEmailVerification u) k) /\
  finishes_at_once (verifyEmail None s) /\
  forall env : AuthService,
    snd (eff_run env (verifyEmail None) s) = Normal tt /\
    auth_error (fst (eff_run env (verifyEmail None) s)) = None /\
    auth_loading (fst (eff_run env (verifyEmail None) s)) = false.
Proof.
  split; [intros u; eexists _, _; reflexivity|].
  split; [exact I | intros env; repeat split].
Qed.

(** X23 -- The auth listener never throws.  On sign-out it clears the
    session without a call.  On sign-in it raises the authenticated flag
    before it asks for the profile (the flag is up while the call is in
    flight), and the flag stays up when the profile cannot be fetched: the
    user is then authenticated with the previous current user, and the
    failure is only left in the error slot. *)
Theorem authStateChanged_session (s : AuthStore) :
  authStateChanged None s
  = Finished (set_currentUser None (set_isAuthenticated false s)) (Normal tt) /\
  (forall firebaseUser,
     (exists s1 k,
        authStateChanged (Some firebaseUser) s = Waiting s1 getProfile k /\
        isAuthenticated s1 = true) /\
     forall env : AuthService,
       let s' := fst (eff_run env (authStateChanged (Some firebaseUser)) s) in
       snd (eff_run env (authStateChanged (Some firebaseUser)) s) = Normal tt /\
       isAuthenticated s' = true /\
       (forall profile, env _ getProfile = Resolved profile ->
          currentUser s' = Some profile /\ auth_error s' = None) /\
       (forall e, env _ getProfile = Rejected e ->
          currentUser s' = currentUser s /\
          exists msg, auth_error s' = Some msg /\ msg <> "")).
Proof.
  split; [reflexivity|]. intros firebaseUser. split.
  - eexists _, _. split; reflexivity.
  - intros env. unfold eff_run. cbn. destruct (env _ getProfile) as [profile|e]; cbn.
    + split; [reflexivity|]. split; [reflexivity|].
      split; [intros p [= <-]; split; reflexivity | intros e H; discriminate H].
    + split; [reflexivity|]. split; [reflexivity|].
      split; [intros p H; discriminate H|].
      intros e' [= <-]. split; [reflexivity|]. eexists. split; [reflexivity|].
      now apply or_else_nonempty.
Qed.

Lemma authStateChanged_session_witness :
  auth_service_down _ getProfile = Rejected network_error
  /\ isAuthenticated
       (fst (eff_run auth_service_down
               (authStateChanged (Some {| fb_uid := "u-1"; fb_emailVerified := true |}))
               initial_auth)) = true
  /\ currentUser
       (fst (eff_run auth_service_down
               (authStateChanged (Some {| fb_uid := "u-1"; fb_emailVerified := true |}))
               initial_auth)) = None.
Proof.
  destruct (proj2 (proj2 (authStateChanged_session initial_auth)
                     {| fb_uid := "u-1"; fb_emailVerified := true |}) auth_service_down)
    as (_ & Hflag & _ & Hfail).
  split; [reflexivity | split; [exact Hflag|]].
  exact (proj1 (Hfail network_error eq_refl)).
Defined.

(** ** The navigation guard *)

(** X24 -- The guard lets a navigation through exactly when the session
    meets everything the target asks for: a session where [requiresAuth],
    no session on the login and register pages, an admin where
    [requiresAdmin], a verified mail where [requiresVerification] and a
    completed profile where [requiresProfile]. *)
Theorem guard_checks_proceed_iff (to : RouteLocation) (authStore : AuthStore) :
  guard_checks to authStore = proceed <->
  (flag (requiresAuth (meta to)) = true -> isAuthenticated authStore = true) /\
  (named "Login" to || named "Register" to = true -> isAuthenticated authStore = false) /\
  (flag (requiresAdmin (meta to)) = true -> isAdmin authStore = true) /\
  (flag (requiresVerification (meta to)) = true -> isVerified authStore = true) /\
  (flag (requiresProfile (meta to)) = true -> profileCompleted authStore = true).
Proof.
  unfold guard_checks.
  destruct (flag (requiresAuth (meta to))), (isAuthenticated authStore),
    (named "Login" to || named "Register" to), (flag (requiresAdmin (meta to))),
    (isAdmin authStore), (flag (requiresVerification (meta to))), (isVerified authStore),
    (flag (requiresProfile (meta to))), (profileCompleted authStore); cbn;
    (split; [intros H; try discriminate H; repeat split; auto
            | intros (H1 & H2 & H3 & H4 & H5);
              try (discriminate (H1 eq_refl)); try (discriminate (H2 eq_refl));
              try (discriminate (H3 eq_refl)); try (discriminate (H4 eq_refl));
              try (discriminate (H5 eq_refl)); reflexivity]).
Qed.

Lemma guard_checks_proceed_iff_witness :
  guard_checks sample_upload_location sample_session = proceed
  /\ (flag (requiresVerification (meta sample_upload_location)) = true ->
      isVerified sample_session = true).
Proof.
  split; [reflexivity|].
  exact (proj1 (proj2 (proj2 (proj2
           (proj1 (guard_checks_proceed_iff sample_upload_location sample_session)
              eq_refl))))).
Defined.

(** X25 -- The guard decides on the session as it is after its pause.
    With a session, or for a target that asks for none, it decides at once
    on the store as it is.  Otherwise it waits 500 ms once and then decides
    on the store as it is by then: a sign-in that arrives during the pause
    is honoured, and without one the navigation goes to the login page
    with the target's path as [redirect]. *)
Theorem beforeEach_decides_after_pause (to : RouteLocation) (authStore : AuthStore) :
  (negb (isAuthenticated authStore) && flag (requiresAuth (meta to)) = false ->
     beforeEach to authStore = Finished authStore (Normal (guard_checks to authStore))) /\
  (negb (isAuthenticated authStore) && flag (requiresAuth (meta to)) = true ->
     exists k,
       beforeEach to authStore = Waiting authStore (timeout 500) k /\
       forall later : AuthStore,
         k (Resolved tt) later = Finished later (Normal (guard_checks to later)) /\
         (isAuthenticated later = false ->
            guard_checks to later = redirect_to "Login" (Some (fullPath to)))).
Proof.
  unfold beforeEach, eff_bind, eff_get. cbn [eff_on_completion]. split; intros H; rewrite H.
  - reflexivity.
  - eexists. split; [reflexivity|]. intros later. split; [reflexivity|].
    intros Hl. apply andb_prop in H as (_ & Hreq).
    unfold guard_checks. now rewrite Hreq, Hl.
Qed.

Lemma beforeEach_decides_after_pause_witness :
  negb (isAuthenticated initial_auth)
  && flag (requiresAuth (meta sample_upload_location)) = true
  /\ exists k,
       beforeEach sample_upload_location initial_auth
       = Waiting initial_auth (timeout 500) k /\
       k (Resolved tt) sample_session = Finished sample_session (Normal proceed).
Proof.
  split; [reflexivity|].
  destruct (proj2 (beforeEach_decides_after_pause sample_upload_location initial_auth)
              eq_refl) as (k & Hk & Hlater).
  exists k. split; [exact Hk|]. exact (proj1 (Hlater sample_session)).
Defined.

Lemma guard_settles_at (name : string) (needs_auth : bool) (to : RouteLocation)
    (authStore : AuthStore) :
  route_name to = Some name -> meta to = meta_auth needs_auth ->
  isAuthenticated authStore = needs_auth ->
  (needs_auth = true -> name <> "Login" /\ name <> "Register") ->
  guard_checks to authStore = proceed.
Proof.
  intros Hn Hm Ha Hname. unfold guard_checks, named. rewrite Hn, Hm, Ha. cbn.
  destruct needs_auth; cbn; [|now rewrite andb_false_r].
  destruct (Hname eq_refl) as (Hl & Hr).
  destruct (String.eqb_spec name "Login"); [contradiction|].
  destruct (String.eqb_spec name "Register"); [contradiction|]. reflexivity.
Qed.

Lemma route_in_table (r : RouteRecord) : In r routes -> r ∈ routes.
Proof. apply list_elem_of_In. Qed.

(** X26 -- A redirect of the guard is not redirected again: for every
    named route of the table and every session, the guard either lets the
    navigation through or redirects to a named route of the table that,
    for the same session, it lets through. *)
Theorem guard_redirects_settle (r : RouteRecord) (to : RouteLocation)
    (authStore : AuthStore) :
  r ∈ routes -> is_Some (record_name r) -> resolves_to r to ->
  guard_checks to authStore = proceed \/
  exists name query r',
    guard_checks to authStore = redirect_to name query /\
    r' ∈ routes /\ record_name r' = Some name /\
    forall to', resolves_to r' to' -> guard_checks to' authStore = proceed.
Proof.
  intros Hin Hname (Hn & Hm).
  set (login := {| record_path := "/login"; record_name := Some "Login";
                   record_redirect := None; record_meta := meta_auth false |}).
  set (dashboard := {| record_path := "/dashboard"; record_name := Some "Dashboard";
                       record_redirect := None; record_meta := meta_auth true |}).
  set (profile := {| record_path := "/profile"; record_name := Some "Profile";
                     record_redirect := None; record_meta := meta_auth true |}).
  assert (isAuthenticated authStore = false ->
          forall to', resolves_to login to' -> guard_checks to' authStore = proceed)
    as Hlogin.
  { intros Ha to' (Hn' & Hm'). apply (guard_settles_at "Login" false); auto. }
  assert (isAuthenticated authStore = true ->
          forall to', resolves_to dashboard to' -> guard_checks to' authStore = proceed)
    as Hdash.
  { intros Ha to' (Hn' & Hm'). apply (guard_settles_at "Dashboard" true); auto;
      try (intros _; split; discriminate). }
  assert (isAuthenticated authStore = true ->
          forall to', resolves_to profile to' -> guard_checks to' authStore = proceed)
    as Hprof.
  { intros Ha to' (Hn' & Hm'). apply (guard_settles_at "Profile" true); auto;
      try (intros _; split; discriminate). }
  assert (login ∈ routes) as Inlogin by (apply route_in_table; cbn; tauto).
  assert (dashboard ∈ routes) as Indash by (apply route_in_table; cbn; tauto).
  assert (profile ∈ routes) as Inprof by (apply route_in_table; cbn; tauto).
  assert (forall q, guard_checks to authStore = redirect_to "Login" q ->
                    isAuthenticated authStore = false ->
                    exists name query r',
                      guard_checks to authStore = redirect_to name query /\
                      r' ∈ routes /\ record_name r' = Some name /\
                      forall to', resolves_to r' to' -> guard_checks to' authStore = proceed)
    as ToLogin by (intros q Hq Ha; exists "Login", q, login; auto).
  assert (guard_checks to authStore = redirect_to "Dashboard" None ->
          isAuthenticated authStore = true ->
          exists name query r',
            guard_checks to authStore = redirect_to name query /\
            r' ∈ routes /\ record_name r' = Some name /\
            forall to', resolves_to r' to' -> guard_checks to' authStore = proceed)
    as ToDash by (intros Hq Ha; exists "Dashboard", None, dashboard; auto).
  assert (guard_checks to authStore = redirect_to "Profile" None ->
          isAuthenticated authStore = true ->
          exists name query r',
            guard_checks to authStore = redirect_to name query /\
            r' ∈ routes /\ record_name r' = Some name /\
            forall to', resolves_to r' to' -> guard_checks to' authStore = proceed)
    as ToProf by (intros Hq Ha; exists "Profile", None, profile; auto).
  clearbody login dashboard profile.
  apply list_elem_of_In in Hin. cbn in Hin.
  repeat destruct Hin as [<- | Hin]; try contradiction;
    try (destruct Hname as [? Hname]; discriminate Hname);
    cbn in Hn, Hm;
    destruct (isAuthenticated authStore) eqn:Hauth;
    destruct (isAdmin authStore) eqn:Hadm;
    destruct (isVerified authStore) eqn:Hver;
    destruct (profileCompleted authStore) eqn:Hpro;
    first
      [ left; unfold guard_checks, named;
        rewrite Hn, Hm, ?Hauth, ?Hadm, ?Hver, ?Hpro; reflexivity
      | right; apply (ToLogin (Some (fullPath to))); [|reflexivity];
        unfold guard_checks, named;
        rewrite Hn, Hm, ?Hauth, ?Hadm, ?Hver, ?Hpro; reflexivity
      | right; apply ToDash; [|reflexivity]; unfold guard_checks, named;
        rewrite Hn, Hm, ?Hauth, ?Hadm, ?Hver, ?Hpro; reflexivity
      | right; apply ToProf; [|reflexivity]; unfold guard_checks, named;
        rewrite Hn, Hm, ?Hauth, ?Hadm, ?Hver, ?Hpro; reflexivity ].
Qed.

Lemma guard_redirects_settle_witness :
  resolves_to
    {| record_path := "/invoices/upload"; record_name := Some "InvoiceUpload";
       record_redirect := None;
       record_meta := {| requiresAuth := Some true; requiresAdmin := None;
                         requiresVerification := Some true;
                         requiresProfile := Some true |} |}
    sample_upload_location
  /\ (guard_checks sample_upload_location sample_session_no_profile = proceed \/
      exists name query r',
        guard_checks sample_upload_location sample_session_no_profile
        = redirect_to name query /\
        r' ∈ routes /\ record_name r' = Some name /\
        forall to', resolves_to r' to' ->
          guard_checks to' sample_session_no_profile = proceed).
Proof.
  assert (resolves_to
            {| record_path := "/invoices/upload"; record_name := Some "InvoiceUpload";
               record_redirect := None;
               record_meta := {| requiresAuth := Some true; requiresAdmin := None;
                                 requiresVerification := Some true;
                                 requiresProfile := Some true |} |}
            sample_upload_location) as Hres by (split; reflexivity).
  split; [exact Hres|].
  apply (guard_redirects_settle _ sample_upload_location sample_session_no_profile)
    with (3 := Hres).
  - apply route_in_table. cbn. tauto.
  - eexists. reflexivity.
Defined.

(** ** The admin store *)

Lemma admin_action_run {A} (env : AdminService) (dflt : string)
    (body : AdminStore -> Eff AdminCall AdminStore A) (s : AdminStore) :
  eff_run env (admin_action dflt body) s
  = let s0 := set_admin_error None (set_admin_loading true s) in
    match snd (eff_run env body s0) with
    | Normal a => (set_admin_loading false (fst (eff_run env body s0)), Normal a)
    | Thrown e =>
        (set_admin_loading false
           (set_admin_error (Some (or_else (message e) dflt)) (fst (eff_run env body s0))),
         Thrown e)
    end.
Proof.
  unfold eff_run, admin_action, eff_try_catch_finally, eff_try_finally, eff_try_catch,
    eff_bind, eff_assign. cbn [eff_on_completion].
  rewrite !eff_run_on_completion. cbn zeta.
  destruct (eff_run_from env (body _)) as [s1 [a|e]]; reflexivity.
Qed.

Lemma replace_user_first (userId : string) (updated : User) (s : AdminStore) i u :
  first_match (uid_is userId) (users s) i u ->
  replace_user userId updated s = set_users (<[i := updated]> (users s)) s.
Proof.
  intros H. unfold replace_user, findIndex.
  rewrite (findIndex_from_first _ _ 0 i u H).
  destruct (Z.eqb_spec (0 + Z.of_nat i) (-1)) as [E|_]; [lia|].
  now replace (Z.to_nat (0 + Z.of_nat i)) with i by lia.
Qed.

Lemma replace_user_none (userId : string) (updated : User) (s : AdminStore) :
  no_match (uid_is userId) (users s) -> replace_user userId updated s = s.
Proof.
  intros H. unfold replace_user, findIndex. now rewrite (findIndex_from_none _ _ 0 H).
Qed.

(** X27 -- [updateUser] puts the user the service returns in the place of
    the first entry with the uid, whole (nothing of the old entry is
    kept), and leaves every other entry and the length of the list alone;
    when no entry has the uid the list is untouched and the updated user is
    returned all the same; when the service rejects, the list is
    untouched, the rejection is thrown again and the error slot is not
    empty. *)
Theorem updateUser_replaces_entry (env : AdminService) (s : AdminStore)
    (userId : string) (updates : UserUpdate) :
  let s' := fst (eff_run env (updateUser userId updates) s) in
  let r := snd (eff_run env (updateUser userId updates) s) in
  length (users s') = length (users s) /\ admin_loading s' = false /\
  (forall updated, env _ (updateUser_call userId updates) = Resolved updated ->
     r = Normal updated /\
     (forall i u, first_match (uid_is userId) (users s) i u ->
        users s' = <[i := updated]> (users s)) /\
     (no_match (uid_is userId) (users s) -> users s' = users s)) /\
  (forall e, env _ (updateUser_call userId updates) = Rejected e ->
     r = Thrown e /\ users s' = users s /\
     exists msg, admin_error s' = Some msg /\ msg <> "").
Proof.
  cbn zeta. unfold updateUser. rewrite admin_action_run. cbn zeta.
  unfold eff_run. cbn.
  destruct (env _ (updateUser_call userId updates)) as [updated|e]; cbn.
  - set (s0 := set_admin_error None (set_admin_loading true s)).
    assert (users s0 = users s) as Hs0 by reflexivity.
    destruct (first_match_or_none (uid_is userId) (users s0)) as [Hn | (i & u & H)].
    + rewrite (replace_user_none userId updated s0 Hn). cbn.
      split; [reflexivity | split; [reflexivity | split]].
      * intros x [= <-]. split; [reflexivity|]. split; [|reflexivity].
        intros i u H. destruct (first_match_no_match _ _ _ _ H Hn).
      * intros e H. discriminate H.
    + rewrite (replace_user_first userId updated s0 i u H). cbn.
      split; [apply length_insert | split; [reflexivity | split]].
      * intros x [= <-]. split; [reflexivity|]. split.
        -- intros i' u' H'.
           destruct (first_match_unique _ _ _ _ _ _ H H') as (<- & _). reflexivity.
        -- intros Hn. destruct (first_match_no_match _ _ _ _ H Hn).
      * intros e H0. discriminate H0.
  - split; [reflexivity | split; [reflexivity | split]].
    + intros x H. discriminate H.
    + intros e' [= <-]. split; [reflexivity|]. split; [reflexivity|].
      eexists. split; [reflexivity|]. now apply or_else_nonempty.
Qed.

Lemma updateUser_replaces_entry_witness :
  admin_service_answering (sample_user "u-2" role_user true true) _
    (updateUser_call "u-2" {| update_role := Some role_user; update_isActive := None |})
  = Resolved (sample_user "u-2" role_user true true)
  /\ first_match (uid_is "u-2") (users sample_admin_store) 1
       (sample_user "u-2" role_admin true true)
  /\ users (fst (eff_run (admin_service_answering (sample_user "u-2" role_user true true))
                   (updateUser "u-2"
                      {| update_role := Some role_user; update_isActive := None |})
                   sample_admin_store))
     = [sample_user "u-1" role_user true true; sample_user "u-2" role_user true true].
Proof.
  assert (first_match (uid_is "u-2") (users sample_admin_store) 1
            (sample_user "u-2" role_admin true true)) as Hfirst.
  { repeat split. intros [|[|j]] e' Hj Hl; [|lia|lia].
    injection Hl as <-. reflexivity. }
  split; [reflexivity | split; [exact Hfirst|]].
  destruct (updateUser_replaces_entry
              (admin_service_answering (sample_user "u-2" role_user true true))
              sample_admin_store "u-2"
              {| update_role := Some role_user; update_isActive := None |})
    as (_ & _ & Hok & _).
  destruct (Hok _ eq_refl) as (_ & Hrep & _).
  rewrite (Hrep 1%nat _ Hfirst). reflexivity.
Defined.

(** X28 -- The role views partition the users: every user is listed by
    exactly one of [adminUsers] and [regularUsers], and no more users are
    active than there are users. *)
Theorem role_views_partition_users (s : AdminStore) :
  (length (adminUsers s) + length (regularUsers s))%nat = length (users s) /\
  (forall u, u ∈ users s <-> (u ∈ adminUsers s \/ u ∈ regularUsers s)) /\
  (forall u, ~ (u ∈ adminUsers s /\ u ∈ regularUsers s)) /\
  (activeUsers s <= length (users s))%nat.
Proof.
  unfold adminUsers, regularUsers, activeUsers, count_where.
  split; [|split; [|split]].
  - induction (users s) as [|u l IH]; [reflexivity|].
    cbn [List.filter]. unfold is_admin_user, is_regular_user in *.
    destruct (user_role u); cbn [length] in *; lia.
  - intros u. rewrite !list_elem_of_In, !filter_In.
    unfold is_admin_user, is_regular_user. destruct (user_role u); tauto.
  - intros u. rewrite !list_elem_of_In, !filter_In.
    unfold is_admin_user, is_regular_user. destruct (user_role u);
      intros ((_ & H1) & (_ & H2)); discriminate.
  - apply List.filter_length_le.
Qed.

(** X29 -- A failed admin action loses nothing: when the service rejects,
    every action of the admin store leaves the users, the invoices, the
    statistics snapshot and the totals as they were, with the loading flag
    down and a non-empty message in the error slot. *)
Theorem admin_failure_keeps_data (env : AdminService) (a : AdminAction) (s : AdminStore) :
  (forall R (c : AdminCall R), exists e, env R c = Rejected e) ->
  let s' := fst (eff_run env (perform_admin a) s) in
  users s' = users s /\ allInvoices s' = allInvoices s /\
  statistics s' = statistics s /\ totalUsers s' = totalUsers s /\
  admin_totalInvoices s' = admin_totalInvoices s /\
  admin_loading s' = false /\
  exists msg, admin_error s' = Some msg /\ msg <> "".
Proof.
  intros Hdown. cbn zeta.
  destruct a as [pg lm | uid upd | filters | ]; unfold eff_run; cbn.
  - destruct (Hdown _ (getUsers (default 1%Q pg) (default 50%Q lm))) as (e & ->). cbn.
    repeat split. eexists. split; [reflexivity|]. now apply or_else_nonempty.
  - destruct (Hdown _ (updateUser_call uid upd)) as (e & ->). cbn.
    repeat split. eexists. split; [reflexivity|]. now apply or_else_nonempty.
  - destruct (Hdown _ (getAllInvoices filters)) as (e & ->). cbn.
    repeat split. eexists. split; [reflexivity|]. now apply or_else_nonempty.
  - destruct (Hdown _ getStatistics) as (e & ->). cbn.
    repeat split. eexists. split; [reflexivity|]. now apply or_else_nonempty.
Qed.

Lemma admin_failure_keeps_data_witness :
  (forall R (c : AdminCall R), exists e, admin_service_down R c = Rejected e)
  /\ users (fst (eff_run admin_service_down (perform_admin do_fetchStatistics)
                   sample_admin_store)) = users sample_admin_store
  /\ statistics (fst (eff_run admin_service_down (perform_admin do_fetchStatistics)
                        sample_admin_store)) = None.
Proof.
  assert (forall R (c : AdminCall R), exists e, admin_service_down R c = Rejected e)
    as Hdown by (intros R c; exists network_error; reflexivity).
  split; [exact Hdown|].
  destruct (admin_failure_keeps_data admin_service_down do_fetchStatistics
              sample_admin_store Hdown) as (Hu & _ & Hst & _).
  split; [exact Hu | exact Hst].
Defined.

(** ** The upload form *)

(** X30 -- What the upload form lets through.  After a file selection the
    form holds a file exactly when one was picked, the browser reports it
    as [application/pdf] and it is no larger than 10 MB (10485760 bytes,
    the bound included); then it is the picked file and the error text is
    empty.  Otherwise nothing is selected -- a file selected before is
    dropped -- and a picked file that is refused leaves its reason: the
    media type is checked first, the size second. *)
Theorem handleFileSelect_accepts (first_file : option BrowserFile) (form : UploadForm) :
  let form' := handleFileSelect first_file form in
  (forall file,
     selectedFile form' = Some file <->
     first_file = Some file /\ file_type file = "application/pdf" /\
     file_size file <= 10485760) /\
  (is_Some (selectedFile form') -> upload_error form' = "") /\
  (forall file, first_file = Some file -> file_type file <> "application/pdf" ->
     selectedFile form' = None /\ upload_error form' = "Only PDF files are allowed") /\
  (forall file, first_file = Some file -> file_type file = "application/pdf" ->
     10485760 < file_size file ->
     selectedFile form' = None /\ upload_error form' = "File size must not exceed 10MB") /\
  (first_file = None -> form' = set_selectedFile None form).
Proof.
  cbn zeta. unfold handleFileSelect, validateFile.
  destruct first_file as [f|]; cbn zeta.
  2:{ split; [intros file; split; [intros H; discriminate H | intros ([=] & _)]|].
      split; [intros [x H]; discriminate H|].
      split; [intros file H; discriminate H|].
      split; [intros file H; discriminate H | reflexivity]. }
  change (10 * 1024 * 1024) with 10485760.
  destruct (String.eqb_spec (file_type f) "application/pdf") as [Ht|Ht]; cbn [negb].
  - destruct (Z.gtb_spec (file_size f) 10485760) as [Hs|Hs]; cbn.
    + split; [intros file; split; [intros H; discriminate H | intros ([= <-] & _ & H); lia]|].
      split; [intros [x H]; discriminate H|].
      split; [intros file [= <-] H; contradiction|].
      split; [intros file [= <-] _ _; split; reflexivity | intros H; discriminate H].
    + split; [intros file; split;
                [intros [= <-]; repeat split; auto | intros ([= <-] & _); reflexivity]|].
      split; [reflexivity|].
      split; [intros file [= <-] H; contradiction|].
      split; [intros file [= <-] _ H; lia | intros H; discriminate H].
  - split; [intros file; split;
              [intros H; discriminate H | intros ([= <-] & H & _); contradiction]|].
    split; [intros [x H]; discriminate H|].
    split; [intros file [= <-] _; split; reflexivity|].
    split; [intros file [= <-] H; contradiction | intros H; discriminate H].
Qed.

Lemma handleFileSelect_accepts_witness :
  file_type sample_pdf = "application/pdf" /\ file_size sample_pdf <= 10485760
  /\ selectedFile (handleFileSelect (Some sample_pdf) sample_form) = Some sample_pdf
  /\ upload_error (handleFileSelect (Some sample_pdf) sample_form) = "".
Proof.
  destruct (handleFileSelect_accepts (Some sample_pdf) sample_form) as (Hsel & Herr & _).
  assert (selectedFile (handleFileSelect (Some sample_pdf) sample_form) = Some sample_pdf)
    as H by (apply Hsel; repeat split; apply Z.leb_le; reflexivity).
  split; [reflexivity | split; [apply Z.leb_le; reflexivity | split; [exact H|]]].
  apply Herr. rewrite H. eexists. reflexivity.
Defined.
